(** * geojsonclipper: the merge, filter, selection and export stages

    A shallow embedding of [geojsonclipper.py].  The script is a single
    Streamlit page; the parts embedded here are the ones that compute on the
    data: the property filter (lines 55-65), the buffering and the greedy
    overlap merge (lines 113-166), the reduction statistic (line 207), the
    polygon selection (lines 270-274) and the CSV frame (lines 298-300),
    together with the two [except Exception] handlers (lines 215 and 310).
    Map rendering and widgets are left out.

    Conventions.
    - Python floats are modelled by exact rationals [Q]; rounding is not
      modelled.
    - Python exceptions are values of [exn]; code that can raise returns a
      [result].
    - The geometry operations come from the shapely/geopandas libraries, which
      are not part of the script.  They are the fields of the class [Shapely];
      every theorem on the script's own loops holds for all instances.  A small
      executable instance ([Raster]) serves to run the script on concrete
      inputs. *)

From Stdlib Require Import QArith Qround Ascii.
From stdpp Require Import gmap strings list sorting.

Local Close Scope Q_scope.
Local Open Scope nat_scope.

(** ** Exceptions and results *)

Inductive exn : Type :=
  | ZeroDivisionError (msg : string)
  | ValueError (msg : string)
  | IndexError (msg : string)
  | AttributeError (msg : string).

(** [str(e)] *)
Definition exn_str (e : exn) : string :=
  match e with
  | ZeroDivisionError m | ValueError m | IndexError m | AttributeError m => m
  end.

(** [type(e).__name__] *)
Definition exn_class (e : exn) : string :=
  match e with
  | ZeroDivisionError _ => "ZeroDivisionError"
  | ValueError _ => "ValueError"
  | IndexError _ => "IndexError"
  | AttributeError _ => "AttributeError"
  end.

Inductive result (A : Type) : Type :=
  | Ok (a : A)
  | Raise (e : exn).
Arguments Ok {A} a.
Arguments Raise {A} e.

#[global] Instance result_ret : MRet result := λ A a, Ok a.
#[global] Instance result_bind : MBind result := λ A B f m,
  match m with Ok a => f a | Raise e => Raise e end.
#[global] Instance result_fmap : FMap result := λ A B f m,
  match m with Ok a => Ok (f a) | Raise e => Raise e end.

(** What the page shows after a stage: its value, or the messages of the
    [except Exception as e] handler around it. *)
Inductive outcome (A : Type) : Type :=
  | Done (a : A)
  | Reported (messages : list string).
Arguments Done {A} a.
Arguments Reported {A} messages.

(** A [for x in xs:] loop whose body updates a state and may raise. *)
Fixpoint for_each {A S : Type} (body : S → A → result S) (xs : list A) (s : S)
  : result S :=
  match xs with
  | [] => Ok s
  | x :: xs' => s' ← body s x; for_each body xs' s'
  end.

(** ** Numbers *)

(** [a < b] on floats. *)
Definition Qlt_b (a b : Q) : bool := negb (Qle_bool b a).

(** Python's [min(a, b)]: the second argument only when it is smaller. *)
Definition pymin (a b : Q) : Q := if Qlt_b b a then b else a.

(** Python's true division [a / b], which raises on a zero divisor; the
    message tells floats from integers. *)
Definition true_div (msg : string) (a b : Q) : result Q :=
  if Qeq_bool b 0 then Raise (ZeroDivisionError msg) else Ok (a / b)%Q.

Definition float_div : Q → Q → result Q := true_div "float division by zero".

Definition int_div (a b : Z) : result Q :=
  true_div "division by zero" (inject_Z a) (inject_Z b).

(** ** File type (line 37) *)

(** [c.lower()] for an ASCII letter; other bytes stay as they are. *)
Definition lower_ascii (c : ascii) : ascii :=
  let n := nat_of_ascii c in
  if (65 <=? n) && (n <=? 90) then ascii_of_nat (n + 32) else c.

(** [s.lower()] *)
Fixpoint lower (s : string) : string :=
  match s with
  | EmptyString => EmptyString
  | String c s' => String (lower_ascii c) (lower s')
  end.

(** [s.split(sep)] for a separator of one character: never an empty list. *)
Fixpoint split (sep : ascii) (s : string) : list string :=
  match s with
  | EmptyString => [EmptyString]
  | String c s' =>
      if decide (c = sep) then EmptyString :: split sep s'
      else match split sep s' with
           | [] => [String c EmptyString]
           | part :: parts => String c part :: parts
           end
  end.

(** [uploaded_file.name.split('.')[-1].lower()] *)
Definition file_type (name : string) : string :=
  lower (List.last (split "."%char name) EmptyString).

(** Line 41: the file is read as GeoJSON, otherwise as CSV. *)
Definition reads_geojson (name : string) : bool :=
  bool_decide (file_type name = "geojson").

(** The string has no ['.'] in it. *)
Fixpoint dot_free (s : string) : bool :=
  match s with
  | EmptyString => true
  | String c s' => negb (bool_decide (c = "."%char)) && dot_free s'
  end.

(** ** Rings in the plane *)

(** The edges of a ring of coordinates, with the closing edge from the last
    vertex back to the first. *)
Definition ring_edges (ring : list (Q * Q)) : list ((Q * Q) * (Q * Q)) :=
  match ring with
  | [] => []
  | v :: vs => zip ring (vs ++ [v])
  end.

Definition between (a b x : Q) : bool :=
  (Qle_bool a x && Qle_bool x b) || (Qle_bool b x && Qle_bool x a).

(** [p] lies on the closed segment from [a] to [b]. *)
Definition on_segment (p : Q * Q) (e : (Q * Q) * (Q * Q)) : bool :=
  let '((ax, ay), (bx, by_)) := e in
  let '(px, py) := p in
  Qeq_bool ((bx - ax) * (py - ay)) ((by_ - ay) * (px - ax))
  && between ax bx px && between ay by_ py.

Definition on_boundary (ring : list (Q * Q)) (p : Q * Q) : bool :=
  existsb (on_segment p) (ring_edges ring).

(** The edge crosses the horizontal ray from [p] towards larger [x]. *)
Definition crosses_ray (p : Q * Q) (e : (Q * Q) * (Q * Q)) : bool :=
  let '((ax, ay), (bx, by_)) := e in
  let '(px, py) := p in
  negb (Bool.eqb (Qlt_b py ay) (Qlt_b py by_))
  && Qlt_b px ((bx - ax) * (py - ay) / (by_ - ay) + ax).

(** [p] is in the interior of the ring: not on it, and an odd number of edges
    cross the ray from [p]. *)
Definition strictly_inside (ring : list (Q * Q)) (p : Q * Q) : bool :=
  negb (on_boundary ring p)
  && Nat.odd (length (List.filter (crosses_ray p) (ring_edges ring))).

(** ** The geometry library *)

Class Shapely : Type := {
  (** feature geometries (shapely [BaseGeometry]) *)
  geometry : Type;
  (** the drawn selection polygon (shapely [Polygon]) *)
  polygon : Type;
  area : geometry → Q;
  intersects : geometry → geometry → bool;
  intersection : geometry → geometry → geometry;
  unary_union : list geometry → geometry;
  centroid : geometry → geometry;
  buffer : geometry → Z → geometry;
  (** [Polygon(coords)] *)
  Polygon : list (Q * Q) → result polygon;
  contains : polygon → geometry → bool;
  (** the [.x] and [.y] accessors of a GeoSeries *)
  geom_x : geometry → result Q;
  geom_y : geometry → result Q;
}.

(** ** Data frames *)

Section Frames.
Context `{Shapely}.

(** The value of one cell of a data frame. *)
Inductive cell : Type :=
  | CStr (s : string)
  | CInt (z : Z)
  | CNum (q : Q)
  | CNull
  | CGeom (g : geometry).

(** A row of a GeoDataFrame: the active geometry and the other columns by
    name, in column order.  All rows of a frame have the same column names. *)
Record row : Type := Row {
  row_geometry : geometry;
  row_props : list (string * cell);
}.

(** A Python dict with string keys, in insertion order. *)
Definition record : Type := list (string * cell).

Definition keys (r : record) : list string := r.*1.

Fixpoint get (k : string) (r : record) : option cell :=
  match r with
  | [] => None
  | (k', v) :: r' => if decide (k' = k) then Some v else get k r'
  end.

(** ** Property filter (lines 55-65) *)

(** Equality of cell values as [isin] sees it: strings with strings, numbers
    with numbers, missing with missing. *)
Definition cell_eqb (a b : cell) : bool :=
  match a, b with
  | CStr s, CStr t => bool_decide (s = t)
  | CInt x, CInt y => bool_decide (x = y)
  | CInt x, CNum q | CNum q, CInt x => Qeq_bool (inject_Z x) q
  | CNum p, CNum q => Qeq_bool p q
  | CNull, CNull => true
  | _, _ => false
  end.

(** [gdf[selected_column]] at one row; a key the feature lacks reads as
    missing. *)
Definition column_value (selected_column : string) (r : row) : cell :=
  default CNull (get selected_column (row_props r)).

Definition isin (v : cell) (selected_values : list cell) : bool :=
  existsb (cell_eqb v) selected_values.

(** Lines 63-64: [if selected_values:
    gdf = gdf[gdf[selected_column].isin(selected_values)]]. *)
Definition property_filter (selected_column : string)
    (selected_values : list cell) (gdf : list row) : list row :=
  match selected_values with
  | [] => gdf
  | _ :: _ =>
      List.filter (λ r, isin (column_value selected_column r) selected_values) gdf
  end.

(** ** Overlap merger (lines 113-166) *)

(** [buffered_gdf = gdf.copy()] followed by
    [buffered_gdf['geometry'] = buffered_gdf.geometry.buffer(buffer_distance)].
    The distance is passed to the library as it is. *)
Definition buffer_frame (buffer_distance : Z) (gdf : list row) : list row :=
  (λ r, Row (buffer (row_geometry r) buffer_distance) (row_props r)) <$> gdf.

(** [buffered_gdf.iloc[i].geometry] *)
Definition iloc_geometry (buffered_gdf : list row) (i : nat) : result geometry :=
  match buffered_gdf !! i with
  | Some r => Ok (row_geometry r)
  | None => Raise (IndexError "single positional indexer is out-of-bounds")
  end.

(** The variables the inner loop reads and writes. *)
Record scan : Type := Scan {
  current_group : list nat;
  current_geom : geometry;
  processed : gset nat;
}.

(** [(intersection_area / min_area) * 100] of lines 148-150. *)
Definition overlap_percentage (current_geom test_geom : geometry) : result Q :=
  let intersection_area := area (intersection current_geom test_geom) in
  let min_area := pymin (area current_geom) (area test_geom) in
  q ← float_div intersection_area min_area;
  Ok (q * 100)%Q.

(** Body of [for j in range(i + 1, len(buffered_gdf))] (lines 143-155). *)
Definition inner_body (overlap_threshold : Z) (buffered_gdf : list row)
    (st : scan) (j : nat) : result scan :=
  if decide (j ∈ processed st) then Ok st
  else
    test_geom ← iloc_geometry buffered_gdf j;
    if intersects (current_geom st) test_geom then
      pct ← overlap_percentage (current_geom st) test_geom;
      if Qlt_b (inject_Z overlap_threshold) pct then
        Ok (Scan (current_group st ++ [j])
                 (unary_union [current_geom st; test_geom])
                 ({[j]} ∪ processed st))
      else Ok st
    else Ok st.

(** [range(a, b)] *)
Definition range (a b : nat) : list nat := seq a (b - a).

(** The dict appended to [merged_features] (lines 158-162). *)
Definition merged_record (current_group : list nat) (current_geom : geometry)
  : record :=
  [("geometry", CGeom current_geom);
   ("original_count", CInt (Z.of_nat (length current_group)));
   ("center", CGeom (centroid current_geom))].

(** Body of [for i in range(len(buffered_gdf))] (lines 136-163); the state is
    [(merged_features, processed)]. *)
Definition outer_body (overlap_threshold : Z) (buffered_gdf : list row)
    (acc : list record * gset nat) (i : nat) : result (list record * gset nat) :=
  let '(merged_features, processed0) := acc in
  if decide (i ∈ processed0) then Ok acc
  else
    g ← iloc_geometry buffered_gdf i;
    st ← for_each (inner_body overlap_threshold buffered_gdf)
                  (range (i + 1) (length buffered_gdf))
                  (Scan [i] g processed0);
    let merged_features' :=
      match current_group st with
      | [] => merged_features
      | _ :: _ => merged_features ++ [merged_record (current_group st) (current_geom st)]
      end in
    Ok (merged_features', {[i]} ∪ processed st).

(** Lines 132-163. *)
Definition merge_loop (overlap_threshold : Z) (buffered_gdf : list row)
  : result (list record) :=
  fst <$> for_each (outer_body overlap_threshold buffered_gdf)
                   (range 0 (length buffered_gdf)) ([], ∅).

(** [row.original_count] of an emitted record. *)
Definition original_count (r : record) : Z :=
  match get "original_count" r with
  | Some (CInt n) => n
  | _ => 0
  end.

(** [gpd.GeoDataFrame(merged_features, crs=gdf.crs)]: the ["geometry"] entry
    of each dict becomes the active geometry, the others stay columns. *)
Definition row_of_record (r : record) : result row :=
  match get "geometry" r with
  | Some (CGeom g) => Ok (Row g (filter (λ kv, kv.1 ≠ "geometry") r))
  | _ => Raise (AttributeError "No geometry data set")
  end.

Fixpoint GeoDataFrame (records : list record) : result (list row) :=
  match records with
  | [] => Ok []
  | r :: rs => x ← row_of_record r; xs ← GeoDataFrame rs; Ok (x :: xs)
  end.

(** The merge stage up to the statistics (lines 113-114, 132-166, 207):
    the merged frame and the reduction percentage. *)
Definition merge_stage (buffer_distance overlap_threshold : Z) (gdf : list row)
  : result (list row * Q) :=
  let buffered_gdf := buffer_frame buffer_distance gdf in
  merged_features ← merge_loop overlap_threshold buffered_gdf;
  merged ← GeoDataFrame merged_features;
  q ← int_div (Z.of_nat (length gdf) - Z.of_nat (length merged))
              (Z.of_nat (length gdf));
  Ok (merged, (q * 100)%Q).

(** Lines 87 and 215-217. *)
Definition merge_section (buffer_distance overlap_threshold : Z) (gdf : list row)
  : outcome (list row * Q) :=
  match merge_stage buffer_distance overlap_threshold gdf with
  | Ok v => Done v
  | Raise e =>
      Reported ["Error during merging: " +:+ exn_str e;
                "Please try adjusting the buffer distance or overlap threshold."]
  end.

(** ** Polygon selector (lines 270-274) *)

(** [output['last_active_drawing']]: a GeoJSON geometry. *)
Record drawing : Type := Drawing {
  geometry_type : string;
  coordinates : list (list (Q * Q));
}.

(** Line 274: the rows whose centroid the polygon contains. *)
Definition select_rows (select_poly : polygon) (gdf : list row) : list row :=
  List.filter (λ r, contains select_poly (centroid (row_geometry r))) gdf.

(** Lines 270-274; [None] when nothing is drawn or the drawing is not a
    polygon. *)
Definition select_stage (last_active_drawing : option drawing) (gdf : list row)
  : result (option (list row)) :=
  match last_active_drawing with
  | None => Ok None
  | Some selection =>
      if decide (geometry_type selection = "Polygon") then
        ring ← match coordinates selection with
               | [] => Raise (IndexError "list index out of range")
               | ring :: _ => Ok ring
               end;
        select_poly ← Polygon ring;
        Ok (Some (select_rows select_poly gdf))
      else Ok None
  end.

(** ** CSV export (lines 298-300) *)

Fixpoint mapM {A B : Type} (f : A → result B) (xs : list A) : result (list B) :=
  match xs with
  | [] => Ok []
  | x :: xs' => y ← f x; ys ← mapM f xs'; Ok (y :: ys)
  end.

(** [df[name] = value] at one row: an existing column keeps its place, a new
    one goes last. *)
Fixpoint set_column (name : string) (v : cell) (r : record) : record :=
  match r with
  | [] => [(name, v)]
  | (k, w) :: r' =>
      if decide (k = name) then (k, v) :: r' else (k, w) :: set_column name v r'
  end.

(** Lines 298-300: [output_df], one record per row of the CSV. *)
Definition csv_frame (selected_signals : list row) : result (list record) :=
  let output_df := row_props <$> selected_signals in
  ys ← mapM geom_y (row_geometry <$> selected_signals);
  let output_df := zip_with (λ r y, set_column "latitude" (CNum y) r) output_df ys in
  xs ← mapM geom_x (row_geometry <$> selected_signals);
  Ok (zip_with (λ r x, set_column "longitude" (CNum x) r) output_df xs).

(** Lines 270-308 inside the handler of lines 310-312: the selection and,
    when it is not empty, the CSV frame. *)
Definition selection_section (last_active_drawing : option drawing)
    (gdf : list row) : outcome (option (list row * option (list record))) :=
  let run :=
    sel ← select_stage last_active_drawing gdf;
    match sel with
    | None => Ok None
    | Some selected_signals =>
        match selected_signals with
        | [] => Ok (Some (selected_signals, None))
        | _ :: _ =>
            output_df ← csv_frame selected_signals;
            Ok (Some (selected_signals, Some output_df))
        end
    end in
  match run with
  | Ok v => Done v
  | Raise e =>
      Reported ["Error processing file: " +:+ exn_str e;
                "Please check your file format and try again."]
  end.

(** ** Vocabulary of the statements *)

(** The keys of a merged feature. *)
Definition merged_keys : list string := ["geometry"; "original_count"; "center"].

(** The sum of [original_count] over the emitted features. *)
Definition total_count (merged_features : list record) : Z :=
  foldr Z.add 0%Z (original_count <$> merged_features).

(** [groups] lists, feature by feature, the input indices each emitted
    feature stands for. *)
Definition counts_groups (merged_features : list record)
    (groups : list (list nat)) : Prop :=
  Forall2 (λ r g, original_count r = Z.of_nat (length g)) merged_features groups.

(** State of the outer loop: the emitted features count the members of
    disjoint groups that together are the processed indices, all below [n]. *)
Definition clustered (n : nat) (acc : list record * gset nat)
    (groups : list (list nat)) : Prop :=
  counts_groups acc.1 groups
  ∧ NoDup (concat groups)
  ∧ (∀ x, x ∈ concat groups ↔ x ∈ acc.2)
  ∧ (∀ x, x ∈ acc.2 → x < n).

(** The comparison of [current_geom] with [test_geom] leaves the cluster as
    it is: they do not intersect, or the percentage does not exceed the
    threshold. *)
Definition kept_apart (overlap_threshold : Z) (current_geom test_geom : geometry)
  : Prop :=
  intersects current_geom test_geom = false
  ∨ ∃ pct, overlap_percentage current_geom test_geom = Ok pct
           ∧ Qlt_b (inject_Z overlap_threshold) pct = false.

(** Every row from position [i] on as a cluster of its own. *)
Fixpoint passthrough (i : nat) (buffered_gdf : list row) : list record :=
  match buffered_gdf with
  | [] => []
  | r :: rest => merged_record [i] (row_geometry r) :: passthrough (S i) rest
  end.

(** The record of one feature in the CSV frame when its geometry has
    coordinates. *)
Definition csv_row (r : row) : result record :=
  y ← geom_y (row_geometry r);
  x ← geom_x (row_geometry r);
  Ok (set_column "longitude" (CNum x) (set_column "latitude" (CNum y) (row_props r))).

(** The messages of the handler of lines 310-312. *)
Definition processing_error (e : exn) : list string :=
  ["Error processing file: " +:+ exn_str e;
   "Please check your file format and try again."].

(** The [original_count]s of what the merge loop returns. *)
Definition emitted_counts (merged_features : result (list record)) : result (list Z) :=
  (λ rs : list record, original_count <$> rs) <$> merged_features.

(** ** Vocabulary of the further statements *)

(** The geometry a cluster ends with: [current_geom] after the members
    [members] were absorbed one after the other. *)
Fixpoint union_members (buffered_gdf : list row) (current_geom : geometry)
    (members : list nat) : option geometry :=
  match members with
  | [] => Some current_geom
  | j :: js =>
      r ← buffered_gdf !! j;
      union_members buffered_gdf (unary_union [current_geom; row_geometry r]) js
  end.

(** The geometry of the cluster with members [group], its seed first. *)
Definition cluster_geometry (buffered_gdf : list row) (group : list nat)
  : option geometry :=
  match group with
  | [] => None
  | i :: members =>
      r ← buffered_gdf !! i; union_members buffered_gdf (row_geometry r) members
  end.

(** The first member of a cluster. *)
Definition seed (group : list nat) : nat := List.hd 0 group.

(** The emitted feature [r] is the one of the cluster [group]. *)
Definition emitted_for (buffered_gdf : list row) (r : record) (group : list nat)
  : Prop :=
  ∃ geom, cluster_geometry buffered_gdf group = Some geom
          ∧ r = merged_record group geom.

(** State of the outer loop before index [k]: the features emitted so far
    are those of [groups]; every group is ascending and starts below [k];
    the seeds ascend; the groups are disjoint and together are the processed
    indices, which are all below the number of rows. *)
Definition traced (buffered_gdf : list row) (k : nat)
    (acc : list record * gset nat) (groups : list (list nat)) : Prop :=
  Forall2 (emitted_for buffered_gdf) acc.1 groups
  ∧ Forall (λ g, g ≠ [] ∧ StronglySorted lt g ∧ seed g < k) groups
  ∧ StronglySorted lt (seed <$> groups)
  ∧ NoDup (concat groups)
  ∧ (∀ x, x ∈ concat groups ↔ x ∈ acc.2)
  ∧ (∀ x, x ∈ acc.2 → x < length buffered_gdf).

(** The row of the merged frame for a cluster. *)
Definition merged_row (group : list nat) (geom : geometry) : row :=
  Row geom [("original_count", CInt (Z.of_nat (length group)));
            ("center", CGeom (centroid geom))].

End Frames.

(** ** An executable geometry

    A geometry is a point, or a region made of unit cells of the coordinate
    grid (the cell [(i, j)] is the unit square centred at [(i, j)]), kept as a
    list of cells in lexicographic order; the area of a region is its number
    of cells.  Buffering a point by [d] gives the cells whose centre is within
    [d] coordinate units of the point. *)

Module Raster.

Inductive rgeom : Type :=
  | Pt (x y : Q)
  | Cells (c : list (Z * Z)).

Definition cell_cmp (a b : Z * Z) : comparison :=
  match (a.1 ?= b.1)%Z with
  | Eq => (a.2 ?= b.2)%Z
  | o => o
  end.

Fixpoint cells_union (l1 : list (Z * Z)) : list (Z * Z) → list (Z * Z) :=
  fix go (l2 : list (Z * Z)) : list (Z * Z) :=
    match l1, l2 with
    | [], _ => l2
    | _, [] => l1
    | a :: l1', b :: l2' =>
        match cell_cmp a b with
        | Lt => a :: cells_union l1' l2
        | Eq => a :: cells_union l1' l2'
        | Gt => b :: go l2'
        end
    end.

Fixpoint cells_inter (l1 : list (Z * Z)) : list (Z * Z) → list (Z * Z) :=
  fix go (l2 : list (Z * Z)) : list (Z * Z) :=
    match l1, l2 with
    | [], _ | _, [] => []
    | a :: l1', b :: l2' =>
        match cell_cmp a b with
        | Lt => cells_inter l1' l2
        | Eq => a :: cells_inter l1' l2'
        | Gt => go l2'
        end
    end.

Definition cell_of (x y : Q) : Z * Z :=
  (Qfloor (x + (1 # 2))%Q, Qfloor (y + (1 # 2))%Q).

Definition zrange (lo hi : Z) : list Z :=
  (λ k, (lo + Z.of_nat k)%Z) <$> seq 0 (Z.to_nat (hi - lo + 1)).

Definition within (x y : Q) (d : Z) (ij : Z * Z) : bool :=
  let dx := (inject_Z ij.1 - x)%Q in
  let dy := (inject_Z ij.2 - y)%Q in
  Qle_bool (dx * dx + dy * dy) (inject_Z (d * d)).

Definition disc (x y : Q) (d : Z) : list (Z * Z) :=
  List.filter (within x y d)
    (i ← zrange (Qfloor x - d) (Qceiling x + d);
     j ← zrange (Qfloor y - d) (Qceiling y + d);
     [(i, j)]).

Definition r_area (g : rgeom) : Q :=
  match g with
  | Pt _ _ => 0
  | Cells c => inject_Z (Z.of_nat (length c))
  end.

Definition r_intersects (a b : rgeom) : bool :=
  match a, b with
  | Pt x y, Pt x' y' => Qeq_bool x x' && Qeq_bool y y'
  | Pt x y, Cells c | Cells c, Pt x y => bool_decide (cell_of x y ∈ c)
  | Cells c, Cells c' =>
      match cells_inter c c' with [] => false | _ :: _ => true end
  end.

Definition r_intersection (a b : rgeom) : rgeom :=
  match a, b with
  | Cells c, Cells c' => Cells (cells_inter c c')
  | Pt x y, _ | _, Pt x y => if r_intersects a b then Pt x y else Cells []
  end.

(** The union keeps the areal parts; a list with no region in it gives its
    first point. *)
Definition r_unary_union (gs : list rgeom) : rgeom :=
  let regions := omap (λ g, match g with Cells c => Some c | Pt _ _ => None end) gs in
  match regions, gs with
  | [], g :: _ => g
  | _, _ => Cells (foldr cells_union [] regions)
  end.

Definition r_centroid (g : rgeom) : rgeom :=
  match g with
  | Pt x y => Pt x y
  | Cells [] => Cells []
  | Cells c =>
      let n := inject_Z (Z.of_nat (length c)) in
      Pt (inject_Z (foldr Z.add 0%Z (c.*1)) / n)
         (inject_Z (foldr Z.add 0%Z (c.*2)) / n)
  end.

Definition cell_disc (d : Z) (ij : Z * Z) : list (Z * Z) :=
  disc (inject_Z ij.1) (inject_Z ij.2) d.

(** A positive distance grows a region by the discs around its cells, a
    negative one keeps the cells whose disc lies in the region. *)
Definition r_buffer (g : rgeom) (d : Z) : rgeom :=
  match g with
  | Pt x y => if decide (0 < d)%Z then Cells (disc x y d) else Cells []
  | Cells c =>
      if decide (0 ≤ d)%Z then
        Cells (foldr cells_union c (cell_disc d <$> c))
      else
        Cells (List.filter
                 (λ ij, forallb (λ k, bool_decide (k ∈ c)) (cell_disc (- d) ij)) c)
  end.

Definition same_point (p q : Q * Q) : bool :=
  Qeq_bool p.1 q.1 && Qeq_bool p.2 q.2.

(** [Polygon(coords)]: the ring is closed when it is not, and a ring that is
    not empty needs four coordinates. *)
Definition r_Polygon (coords : list (Q * Q)) : result (list (Q * Q)) :=
  match coords with
  | [] => Ok []
  | v :: _ =>
      let ring :=
        if same_point v (List.last coords v) then coords else coords ++ [v] in
      if decide (length ring < 4) then
        Raise (ValueError "A linearring requires at least 4 coordinates.")
      else Ok ring
  end.

Definition r_contains (ring : list (Q * Q)) (g : rgeom) : bool :=
  match g with
  | Pt x y => strictly_inside ring (x, y)
  | Cells [] => false
  | Cells c =>
      forallb (λ ij, strictly_inside ring (inject_Z ij.1, inject_Z ij.2)) c
  end.

Definition r_x (g : rgeom) : result Q :=
  match g with
  | Pt x _ => Ok x
  | Cells _ => Raise (ValueError "x attribute access only provided for Point geometries")
  end.

Definition r_y (g : rgeom) : result Q :=
  match g with
  | Pt _ y => Ok y
  | Cells _ => Raise (ValueError "y attribute access only provided for Point geometries")
  end.

#[export] Instance raster : Shapely := {|
  geometry := rgeom;
  polygon := list (Q * Q);
  area := r_area;
  intersects := r_intersects;
  intersection := r_intersection;
  unary_union := r_unary_union;
  centroid := r_centroid;
  buffer := r_buffer;
  Polygon := r_Polygon;
  contains := r_contains;
  geom_x := r_x;
  geom_y := r_y;
|}.

(** A point feature without properties. *)
Definition point_feature (x y : Q) : row := Row (Pt x y) [].

(** Inputs the script is run on below. *)

(** Points at (0,0), (0,0.0001) and (10,10). *)
Definition three_points : list row :=
  [point_feature 0 0; point_feature 0 (1 # 10000); point_feature 10 10].

(** Points at (0,0) and (6,0): their buffers by 5 overlap in part. *)
Definition two_points : list row := [point_feature 0 0; point_feature 6 0].

(** A feature with an empty geometry; its buffer is empty too. *)
Definition empty_feature : row := Row (Cells []) [].

(** A point at (lon = -122.4, lat = 37.8). *)
Definition one_point : list row := [point_feature (-1224 # 10) (378 # 10)].

(** A square drawn from (0,0) to (4,4), and points inside it, at a vertex,
    on an edge and outside. *)
Definition square : list (Q * Q) := [(0, 0); (4, 0); (4, 4); (0, 4); (0, 0)]%Q.

Definition square_drawing : drawing := Drawing "Polygon" [square].

Definition four_points : list row :=
  [point_feature 2 2; point_feature 0 0; point_feature 4 2; point_feature 9 9].

(** A drawing with two vertices. *)
Definition two_vertices : list (Q * Q) := [(0, 0); (1, 1)]%Q.

(** A polygon drawn around (-122.4, 37.8). *)
Definition lasso : drawing :=
  Drawing "Polygon" [[(-200, 0); (0, 0); (0, 100); (-200, 100); (-200, 0)]%Q].

(** What the merge loop emits for [three_points] buffered by 5 units. *)
Definition three_points_merged : list record :=
  match merge_loop 50 (buffer_frame 5 three_points) with
  | Ok merged_features => merged_features
  | Raise _ => []
  end.

(** Three features with properties: the first has a [latitude] property of
    its own, the last lacks [kind]. *)
Definition tagged_points : list row :=
  [Row (Pt 2 2) [("kind", CStr "stop"); ("latitude", CStr "old")];
   Row (Pt 9 9) [("kind", CStr "signal")];
   Row (Pt 1 3) [("name", CStr "c")]].

(** What the merge stage returns for [three_points] buffered by 5 units. *)
Definition three_points_stage : list row * Q :=
  match merge_stage 5 50 three_points with
  | Ok v => v
  | Raise _ => ([], 0%Q)
  end.

End Raster.

(** * Properties *)

(** ** Results, loops and numbers *)

Lemma bind_Ok {A B : Type} (m : result A) (f : A → result B) (b : B) :
  m ≫= f = Ok b ↔ ∃ a, m = Ok a ∧ f a = Ok b.
Proof.
  destruct m as [a|e]; simpl; split.
  - intros Hf. by exists a.
  - by intros (a' & [= ->] & Hf).
  - intros [=].
  - by intros (a' & [=] & _).
Qed.

Lemma for_each_ext {A S : Type} (f g : S → A → result S) (xs : list A) (s : S) :
  (∀ s' x, x ∈ xs → f s' x = g s' x) → for_each f xs s = for_each g xs s.
Proof.
  revert s. induction xs as [|x xs IH]; intros s Hfg; [done|]. simpl.
  rewrite (Hfg s x) by left. destruct (g s x) as [s1|e]; [|done]. simpl.
  apply IH. intros s' y Hy. apply Hfg. by right.
Qed.

(** An invariant of the loop body is an invariant of the loop. *)
Lemma for_each_invariant {A S : Type} (P : S → Prop) (body : S → A → result S)
    (xs : list A) (s s' : S) :
  (∀ t x t', x ∈ xs → P t → body t x = Ok t' → P t') →
  P s → for_each body xs s = Ok s' → P s'.
Proof.
  revert s. induction xs as [|x xs IH]; intros s Hstep Hs Hrun; simpl in Hrun.
  - by injection Hrun as <-.
  - apply bind_Ok in Hrun as (s1 & H1 & Hrun).
    apply (IH s1); [|by eapply Hstep; [left|exact Hs|]|done].
    intros t y t' Hy. apply Hstep. by right.
Qed.

Lemma Qlt_b_true (a b : Q) : Qlt_b a b = true ↔ (a < b)%Q.
Proof.
  unfold Qlt_b. rewrite negb_true_iff, <- not_true_iff_false, Qle_bool_iff.
  split; [apply Qnot_le_lt | apply Qlt_not_le].
Qed.

Lemma Qlt_b_false (a b : Q) : Qlt_b a b = false ↔ (b <= a)%Q.
Proof. unfold Qlt_b. by rewrite negb_false_iff, Qle_bool_iff. Qed.

Lemma true_div_Ok (msg : string) (a b : Q) :
  ¬ (b == 0)%Q → true_div msg a b = Ok (a / b)%Q.
Proof.
  intros Hb. unfold true_div. destruct (Qeq_bool b 0) eqn:E; [|done].
  by apply Qeq_bool_iff in E.
Qed.

Lemma true_div_zero (msg : string) (a b : Q) :
  (b == 0)%Q → true_div msg a b = Raise (ZeroDivisionError msg).
Proof.
  intros Hb. unfold true_div. apply Qeq_bool_iff in Hb. by rewrite Hb.
Qed.

Lemma pymin_le_l (a b : Q) : (pymin a b <= a)%Q.
Proof.
  unfold pymin. destruct (Qlt_b b a) eqn:E.
  - apply Qlt_b_true in E. by apply Qlt_le_weak.
  - apply Qle_refl.
Qed.

Lemma pymin_le_r (a b : Q) : (pymin a b <= b)%Q.
Proof.
  unfold pymin. destruct (Qlt_b b a) eqn:E.
  - apply Qle_refl.
  - by apply Qlt_b_false in E.
Qed.

Lemma pymin_cases (a b : Q) : pymin a b = a ∨ pymin a b = b.
Proof. unfold pymin. destruct (Qlt_b b a); auto. Qed.

Section Properties.
Context `{Shapely}.

Implicit Types (gdf buffered_gdf : list row) (st : scan).

Lemma length_buffer_frame (d : Z) gdf : length (buffer_frame d gdf) = length gdf.
Proof. unfold buffer_frame. by rewrite length_fmap. Qed.

Lemma iloc_geometry_Ok buffered_gdf (i : nat) :
  i < length buffered_gdf →
  ∃ r, buffered_gdf !! i = Some r ∧ iloc_geometry buffered_gdf i = Ok (row_geometry r).
Proof.
  intros Hi. destruct (lookup_lt_is_Some_2 _ _ Hi) as [r Hr].
  exists r. unfold iloc_geometry. by rewrite Hr.
Qed.

Lemma elem_of_range (a b x : nat) : x ∈ range a b ↔ a ≤ x < b.
Proof. unfold range. rewrite elem_of_seq. lia. Qed.

(** ** Property filter *)

(** C5. With no value selected the property filter gives back the collection
    it received: the same features in the same order. *)
Theorem property_filter_empty (selected_column : string) gdf :
  property_filter selected_column [] gdf = gdf.
Proof. reflexivity. Qed.

(** ** The inner scan *)

(** One comparison either leaves the scan state alone or absorbs [j]. *)
Lemma inner_body_cases (thr : Z) buffered_gdf st (j : nat) (st' : scan) :
  inner_body thr buffered_gdf st j = Ok st' →
  st' = st
  ∨ ((j ∉ processed st)
     ∧ ∃ test_geom pct,
         iloc_geometry buffered_gdf j = Ok test_geom
         ∧ intersects (current_geom st) test_geom = true
         ∧ overlap_percentage (current_geom st) test_geom = Ok pct
         ∧ Qlt_b (inject_Z thr) pct = true
         ∧ st' = Scan (current_group st ++ [j])
                      (unary_union [current_geom st; test_geom])
                      ({[j]} ∪ processed st)).
Proof.
  unfold inner_body. intros Hrun.
  destruct (decide (j ∈ processed st)) as [Hin|Hout].
  { left. by injection Hrun as <-. }
  apply bind_Ok in Hrun as (test_geom & Hiloc & Hrun).
  destruct (intersects (current_geom st) test_geom) eqn:Hint.
  2:{ left. by injection Hrun as <-. }
  apply bind_Ok in Hrun as (pct & Hpct & Hrun).
  destruct (Qlt_b (inject_Z thr) pct) eqn:Hlt.
  2:{ left. by injection Hrun as <-. }
  right. split; [done|]. exists test_geom, pct. by injection Hrun as <-.
Qed.

(** The scan appends to the cluster the indices it absorbs: each one once,
    each taken from the scanned range and unprocessed before, and marks
    exactly those as processed. *)
Lemma inner_scan_absorbed (thr : Z) buffered_gdf (js : list nat) st (st' : scan) :
  for_each (inner_body thr buffered_gdf) js st = Ok st' →
  ∃ new,
    current_group st' = current_group st ++ new
    ∧ processed st' = list_to_set new ∪ processed st
    ∧ NoDup new
    ∧ ∀ x, x ∈ new → x ∈ js ∧ x ∉ processed st.
Proof.
  revert st. induction js as [|j js IH]; intros st Hrun; simpl in Hrun.
  - injection Hrun as <-. exists []. rewrite app_nil_r.
    split_and!; [done|set_solver|constructor|]. intros x Hx. by apply not_elem_of_nil in Hx.
  - apply bind_Ok in Hrun as (st1 & Hstep & Hrun).
    destruct (IH _ Hrun) as (new & Hg & Hp & Hnd & Hnew).
    destruct (inner_body_cases _ _ _ _ _ Hstep)
      as [->|(Hj & test_geom & pct & _ & _ & _ & _ & ->)].
    + exists new. split_and!; [done..|].
      intros x Hx. destruct (Hnew x Hx). split; [by right|done].
    + simpl in *. exists (j :: new). split_and!.
      * by rewrite Hg, <- app_assoc.
      * rewrite Hp. set_solver.
      * constructor; [|done]. intros Hjn. destruct (Hnew j Hjn) as [_ Hn]. set_solver.
      * intros x [->|Hx]%elem_of_cons; [split; [left|done]|].
        destruct (Hnew x Hx) as [Hxjs Hxp]. split; [by right|set_solver].
Qed.

(** ** The outer loop *)

Lemma original_count_merged_record (current_group : list nat) (g : geometry) :
  original_count (merged_record current_group g) = Z.of_nat (length current_group).
Proof. reflexivity. Qed.

Lemma keys_merged_record (current_group : list nat) (g : geometry) :
  keys (merged_record current_group g) = merged_keys.
Proof. reflexivity. Qed.

(** One turn of the outer loop on an index below [n] keeps the state
    clustered and leaves the index processed. *)
Lemma outer_body_clustered (thr : Z) buffered_gdf (i : nat)
    (acc acc' : list record * gset nat) (groups : list (list nat)) :
  i < length buffered_gdf →
  clustered (length buffered_gdf) acc groups →
  outer_body thr buffered_gdf acc i = Ok acc' →
  i ∈ acc'.2 ∧ acc.2 ⊆ acc'.2
  ∧ ∃ groups', clustered (length buffered_gdf) acc' groups'.
Proof.
  intros Hi (Hcount & Hnd & Hmem & Hlt) Hrun.
  destruct acc as [merged_features processed0]. simpl in *.
  destruct (decide (i ∈ processed0)) as [Hin|Hout].
  { injection Hrun as <-. split_and!; [done..|]. by exists groups. }
  apply bind_Ok in Hrun as (g & Hg & Hrun).
  apply bind_Ok in Hrun as (st & Hscan & Hrun).
  injection Hrun as <-. simpl.
  destruct (inner_scan_absorbed _ _ _ _ _ Hscan) as (new & Hgrp & Hproc & Hndn & Hnew).
  simpl in Hgrp, Hproc, Hnew. rewrite Hgrp, Hproc. simpl.
  split_and!; [set_solver..|].
  exists (groups ++ [i :: new]). unfold clustered. simpl.
  assert (Hrange : ∀ x, x ∈ new → i < x < length buffered_gdf ∧ x ∉ processed0).
  { intros x Hx. destruct (Hnew x Hx) as [Hr Hp]. apply elem_of_range in Hr. split; [lia|done]. }
  split_and!.
  - apply Forall2_app; [done|]. constructor; [|constructor].
    by rewrite original_count_merged_record.
  - rewrite concat_app. simpl. rewrite app_nil_r. apply NoDup_app. split_and!.
    + done.
    + intros x Hx [->|Hxn]%elem_of_cons.
      * by apply Hout, Hmem.
      * by apply (Hrange x Hxn), Hmem.
    + constructor; [|done]. intros Hin. destruct (Hrange i Hin). lia.
  - intros x. rewrite concat_app. simpl. rewrite app_nil_r.
    rewrite elem_of_app, elem_of_cons, Hmem. set_solver.
  - intros x. rewrite !elem_of_union, elem_of_singleton, elem_of_list_to_set.
    intros [->|[Hx|Hx]]; [done| |by apply Hlt]. by destruct (Hrange x Hx) as [[_ ?] _].
Qed.

Lemma outer_loop_clustered (thr : Z) buffered_gdf (idxs : list nat)
    (acc acc' : list record * gset nat) (groups : list (list nat)) :
  (∀ i, i ∈ idxs → i < length buffered_gdf) →
  clustered (length buffered_gdf) acc groups →
  for_each (outer_body thr buffered_gdf) idxs acc = Ok acc' →
  (∀ i, i ∈ idxs → i ∈ acc'.2) ∧ acc.2 ⊆ acc'.2
  ∧ ∃ groups', clustered (length buffered_gdf) acc' groups'.
Proof.
  revert acc groups. induction idxs as [|i idxs IH]; intros acc groups His Hcl Hrun;
    simpl in Hrun.
  - injection Hrun as <-. split_and!; [by intros i ?%not_elem_of_nil|done|by exists groups].
  - apply bind_Ok in Hrun as (acc1 & Hstep & Hrun).
    destruct (outer_body_clustered _ _ _ _ _ _ (His i ltac:(left)) Hcl Hstep)
      as (Hi1 & Hsub1 & groups1 & Hcl1).
    destruct (IH acc1 groups1 (λ k Hk, His k ltac:(by right)) Hcl1 Hrun)
      as (Hall & Hsub & groups' & Hcl').
    split_and!; [|set_solver|by exists groups'].
    intros k [->|Hk]%elem_of_cons; [set_solver|by apply Hall].
Qed.

Lemma total_count_groups (merged_features : list record) (groups : list (list nat)) :
  counts_groups merged_features groups →
  total_count merged_features = Z.of_nat (length (concat groups)).
Proof.
  induction 1 as [|r g rs gs Hrg _ IH]; [done|].
  change (total_count (r :: rs)) with (original_count r + total_count rs)%Z.
  simpl. rewrite length_app, Nat2Z.inj_add, Hrg, IH. done.
Qed.

(** The features the merge loop emits stand for groups of input indices that
    partition the input. *)
Lemma merge_loop_partition (thr : Z) buffered_gdf (merged_features : list record) :
  merge_loop thr buffered_gdf = Ok merged_features →
  ∃ groups, counts_groups merged_features groups
            ∧ concat groups ≡ₚ seq 0 (length buffered_gdf).
Proof.
  unfold merge_loop. intros Hrun.
  destruct (for_each _ _ _) as [[merged processed']|e] eqn:Hloop; [|done].
  injection Hrun as <-.
  assert (Hidx : ∀ i, i ∈ range 0 (length buffered_gdf) → i < length buffered_gdf).
  { intros i Hi%elem_of_range. lia. }
  assert (Hinit : clustered (length buffered_gdf) ([], ∅) []).
  { split_and!; [constructor|constructor|set_solver|set_solver]. }
  destruct (outer_loop_clustered _ _ _ _ _ _ Hidx Hinit Hloop)
    as (Hall & _ & groups & Hcount & Hnd & Hmem & Hlt).
  simpl in *. exists groups. split; [done|].
  apply NoDup_Permutation; [done|apply NoDup_seq|].
  intros x. rewrite Hmem, elem_of_seq. split.
  - intros Hx. specialize (Hlt x Hx). lia.
  - intros Hx. apply Hall, elem_of_range. lia.
Qed.

(** C2. Whatever the collection, the buffer distance and the threshold, the
    [original_count]s of the features the merger emits add up to the number of
    input features: the emitted features stand for groups of input indices in
    which every index occurs exactly once. *)
Theorem original_count_sum (buffer_distance overlap_threshold : Z) gdf
    (merged_features : list record) :
  merge_loop overlap_threshold (buffer_frame buffer_distance gdf) = Ok merged_features →
  total_count merged_features = Z.of_nat (length gdf)
  ∧ ∃ groups, counts_groups merged_features groups
              ∧ concat groups ≡ₚ seq 0 (length gdf).
Proof.
  intros Hrun. destruct (merge_loop_partition _ _ _ Hrun) as (groups & Hcount & Hperm).
  rewrite length_buffer_frame in Hperm. split; [|by exists groups].
  rewrite (total_count_groups _ _ Hcount), Hperm. by rewrite length_seq.
Qed.

(** ** What the emitted features carry *)

Lemma outer_body_keys (thr : Z) buffered_gdf (i : nat)
    (acc acc' : list record * gset nat) :
  Forall (λ r, keys r = merged_keys) acc.1 →
  outer_body thr buffered_gdf acc i = Ok acc' →
  Forall (λ r, keys r = merged_keys) acc'.1.
Proof.
  destruct acc as [merged_features processed0]. simpl. intros Hall Hrun.
  destruct (decide (i ∈ processed0)); [by injection Hrun as <-|].
  apply bind_Ok in Hrun as (g & _ & Hrun).
  apply bind_Ok in Hrun as (st & _ & Hrun).
  injection Hrun as <-. simpl.
  destruct (current_group st); [done|].
  apply Forall_app. split; [done|]. by constructor.
Qed.

(** The loop reads nothing of a row but its geometry. *)
Lemma merge_loop_geometry_only (thr : Z) buffered_gdf buffered_gdf' :
  row_geometry <$> buffered_gdf = row_geometry <$> buffered_gdf' →
  merge_loop thr buffered_gdf = merge_loop thr buffered_gdf'.
Proof.
  intros Hgeo.
  assert (Hlen : length buffered_gdf = length buffered_gdf').
  { by rewrite <- (length_fmap row_geometry buffered_gdf), Hgeo, length_fmap. }
  assert (Hiloc : ∀ i, iloc_geometry buffered_gdf i = iloc_geometry buffered_gdf' i).
  { intros i. unfold iloc_geometry.
    pose proof (list_lookup_fmap row_geometry buffered_gdf i) as H1.
    pose proof (list_lookup_fmap row_geometry buffered_gdf' i) as H2.
    rewrite Hgeo, H2 in H1.
    destruct (buffered_gdf !! i), (buffered_gdf' !! i); simplify_eq/=; congruence. }
  assert (Hinner : ∀ st j, inner_body thr buffered_gdf st j
                           = inner_body thr buffered_gdf' st j).
  { intros st j. unfold inner_body. by rewrite Hiloc. }
  unfold merge_loop. rewrite Hlen. f_equal. apply for_each_ext.
  intros [merged_features processed0] i _. unfold outer_body.
  rewrite Hiloc, Hlen. destruct (decide (i ∈ processed0)); [done|].
  destruct (iloc_geometry buffered_gdf' i) as [g|e]; [simpl|done].
  by rewrite (for_each_ext _ (inner_body thr buffered_gdf') _ _ (fun s x _ => Hinner s x)).
Qed.

(** C10. Every feature the merger emits has exactly the keys [geometry],
    [original_count] and [center]; the properties of the input features are
    not read, so two inputs with the same geometries give the same output
    whatever their properties. *)
Theorem merged_features_fields (overlap_threshold : Z) buffered_gdf
    (merged_features : list record) :
  merge_loop overlap_threshold buffered_gdf = Ok merged_features →
  Forall (λ r, keys r = ["geometry"; "original_count"; "center"]) merged_features
  ∧ ∀ buffered_gdf',
      row_geometry <$> buffered_gdf' = row_geometry <$> buffered_gdf →
      merge_loop overlap_threshold buffered_gdf' = Ok merged_features.
Proof.
  intros Hrun. split.
  - unfold merge_loop in Hrun.
    destruct (for_each _ _ _) as [acc|e] eqn:Hloop; [|done].
    injection Hrun as <-.
    refine (for_each_invariant (λ acc, Forall (λ r, keys r = merged_keys) acc.1)
              _ _ _ _ (fun t x t' _ => outer_body_keys _ _ x t t') _ Hloop).
    constructor.
  - intros buffered_gdf' Hgeo. by rewrite (merge_loop_geometry_only _ _ _ Hgeo).
Qed.

(** ** The threshold comparison *)

Lemma overlap_percentage_Ok (current_geom test_geom : geometry) :
  ¬ (pymin (area current_geom) (area test_geom) == 0)%Q →
  overlap_percentage current_geom test_geom
  = Ok (area (intersection current_geom test_geom)
        / pymin (area current_geom) (area test_geom) * 100)%Q.
Proof.
  intros Hmin. unfold overlap_percentage, float_div.
  by rewrite (true_div_Ok _ _ _ Hmin).
Qed.


(** C4. At threshold 100 a comparison absorbs nothing unless the smaller of
    the two geometries lies wholly in the other: when the area of the
    intersection is below the smaller of the two areas, the cluster stays as
    it is.  (Areas are not negative.) *)
Theorem threshold_100_partial_overlap buffered_gdf st (j : nat)
    (test_geom : geometry) :
  (∀ g, (0 <= area g)%Q) →
  iloc_geometry buffered_gdf j = Ok test_geom →
  (area (intersection (current_geom st) test_geom)
   < pymin (area (current_geom st)) (area test_geom))%Q →
  inner_body 100 buffered_gdf st j = Ok st.
Proof.
  intros Hpos Hiloc Hpartial. unfold inner_body.
  destruct (decide (j ∈ processed st)); [done|]. rewrite Hiloc. simpl.
  destruct (intersects _ _); [|done].
  set (inter := area (intersection (current_geom st) test_geom)) in *.
  set (m := pymin (area (current_geom st)) (area test_geom)) in *.
  assert (Hm : (0 < m)%Q) by (eapply Qle_lt_trans; [apply (Hpos (intersection (current_geom st) test_geom))|done]).
  rewrite overlap_percentage_Ok.
  2:{ fold m. intros Hz. rewrite Hz in Hm. by apply Qlt_irrefl in Hm. }
  fold inter m. simpl.
  assert (Hlt : (inter / m * 100 < 100)%Q).
  { assert (H1 : (inter / m < 1)%Q).
    { apply Qlt_shift_div_r; [done|]. by rewrite Qmult_1_l. }
    apply (Qmult_lt_compat_r _ _ 100) in H1; [|done]. by rewrite Qmult_1_l in H1. }
  apply Qlt_le_weak, Qlt_b_false in Hlt.
  change (inject_Z 100) with 100%Q. by rewrite Hlt.
Qed.

(** With a library whose intersections are no larger than their arguments,
    threshold 100 absorbs nothing at all, full containment included: the
    percentage reaches 100 and the comparison is strict. *)
Lemma threshold_100_keeps_clusters buffered_gdf st (j : nat) (st' : scan) :
  (∀ g, (0 <= area g)%Q) →
  (∀ a b, (area (intersection a b) <= area a)%Q
          ∧ (area (intersection a b) <= area b)%Q) →
  inner_body 100 buffered_gdf st j = Ok st' → st' = st.
Proof.
  intros Hpos Hsub Hrun.
  destruct (inner_body_cases _ _ _ _ _ Hrun)
    as [->|(_ & test_geom & pct & _ & _ & Hpct & Hlt & _)]; [done|exfalso].
  unfold overlap_percentage in Hpct.
  set (inter := area (intersection (current_geom st) test_geom)) in *.
  set (m := pymin (area (current_geom st)) (area test_geom)) in *.
  unfold float_div, true_div in Hpct. destruct (Qeq_bool m 0) eqn:Hm; [done|].
  simpl in Hpct. injection Hpct as <-. apply Qlt_b_true in Hlt.
  change (inject_Z 100) with 100%Q in Hlt.
  assert (Hm0 : ¬ (m == 0)%Q) by (intros Hz; apply Qeq_bool_iff in Hz; congruence).
  assert (Hmpos : (0 < m)%Q).
  { destruct (Qlt_le_dec 0 m) as [|Hle]; [done|]. exfalso. apply Hm0.
    apply Qle_antisym; [done|].
    destruct (pymin_cases (area (current_geom st)) (area test_geom)) as [E|E];
      unfold m; rewrite E; apply Hpos. }
  assert (Hle : (inter <= m)%Q).
  { destruct (Hsub (current_geom st) test_geom) as [Ha Hb].
    destruct (pymin_cases (area (current_geom st)) (area test_geom)) as [E|E];
      unfold m; by rewrite E. }
  assert (H1 : (inter / m <= 1)%Q).
  { apply Qle_shift_div_r; [done|]. by rewrite Qmult_1_l. }
  apply (Qmult_le_compat_r _ _ 100) in H1; [|done]. rewrite Qmult_1_l in H1.
  by apply (Qlt_not_le _ _ Hlt).
Qed.

(** ** When the loop returns, and when it merges nothing *)

Lemma for_each_returns {A S : Type} (body : S → A → result S) (xs : list A) (s : S) :
  (∀ t x, x ∈ xs → ∃ t', body t x = Ok t') → ∃ s', for_each body xs s = Ok s'.
Proof.
  revert s. induction xs as [|x xs IH]; intros s Hbody; simpl; [by exists s|].
  destruct (Hbody s x ltac:(left)) as [s1 ->]. simpl.
  apply IH. intros t y Hy. apply Hbody. by right.
Qed.

(** The merge loop returns as soon as no two intersecting geometries make the
    division of line 150 divide by zero. *)
Lemma merge_loop_returns (thr : Z) buffered_gdf :
  (∀ a b, intersects a b = true → ¬ (pymin (area a) (area b) == 0)%Q) →
  ∃ merged_features, merge_loop thr buffered_gdf = Ok merged_features.
Proof.
  intros Hmin.
  assert (Hinner : ∀ st j, j < length buffered_gdf →
            ∃ st', inner_body thr buffered_gdf st j = Ok st').
  { intros st j Hj. unfold inner_body.
    destruct (decide (j ∈ processed st)); [by eexists|].
    destruct (iloc_geometry_Ok _ _ Hj) as (r & _ & ->). simpl.
    destruct (intersects _ _) eqn:Hint; [|by eexists].
    rewrite (overlap_percentage_Ok _ _ (Hmin _ _ Hint)). simpl.
    destruct (Qlt_b _ _); by eexists. }
  unfold merge_loop.
  destruct (for_each_returns (outer_body thr buffered_gdf)
              (range 0 (length buffered_gdf)) ([], ∅)) as [acc ->]; [|by eexists].
  intros [merged_features processed0] i Hi%elem_of_range. unfold outer_body.
  destruct (decide (i ∈ processed0)); [by eexists|].
  destruct (iloc_geometry_Ok buffered_gdf i ltac:(lia)) as (r & _ & ->). simpl.
  destruct (for_each_returns (inner_body thr buffered_gdf)
              (range (i + 1) (length buffered_gdf))
              (Scan [i] (row_geometry r) processed0)) as [st ->]; [|by eexists].
  intros t j Hj%elem_of_range. apply Hinner. lia.
Qed.

Lemma inner_scan_kept_apart (thr : Z) buffered_gdf (js : list nat) st :
  (∀ j, j ∈ js → j < length buffered_gdf) →
  (∀ b, b ∈ buffered_gdf → kept_apart thr (current_geom st) (row_geometry b)) →
  for_each (inner_body thr buffered_gdf) js st = Ok st.
Proof.
  intros Hjs Hkept. induction js as [|j js IH]; [done|]. simpl.
  assert (Hstep : inner_body thr buffered_gdf st j = Ok st).
  { unfold inner_body. destruct (decide (j ∈ processed st)); [done|].
    destruct (iloc_geometry_Ok _ _ (Hjs j ltac:(left))) as (b & Hb & ->). simpl.
    destruct (Hkept b (list_elem_of_lookup_2 _ _ _ Hb)) as [->|(pct & -> & Hle)]; [done|].
    simpl. rewrite Hle. by destruct (intersects _ _). }
  rewrite Hstep. simpl. apply IH. intros k Hk. apply Hjs. by right.
Qed.

Lemma outer_loop_passthrough (thr : Z) (done_rows rest : list row)
    (merged_features : list record) (processed0 : gset nat) :
  let buffered_gdf := done_rows ++ rest in
  (∀ a b, a ∈ buffered_gdf → b ∈ buffered_gdf →
          kept_apart thr (row_geometry a) (row_geometry b)) →
  (∀ x, x ∈ processed0 → x < length done_rows) →
  ∃ processed',
    for_each (outer_body thr buffered_gdf) (seq (length done_rows) (length rest))
             (merged_features, processed0)
    = Ok (merged_features ++ passthrough (length done_rows) rest, processed').
Proof.
  revert done_rows merged_features processed0.
  induction rest as [|r rest IH]; intros done_rows merged_features processed0 B Hkept Hproc.
  - exists processed0. simpl. by rewrite app_nil_r.
  - cbn [length seq for_each passthrough].
    assert (Hr : B !! length done_rows = Some r) by (unfold B; by rewrite list_lookup_middle).
    assert (Hstep : outer_body thr B (merged_features, processed0) (length done_rows)
                    = Ok (merged_features ++ [merged_record [length done_rows] (row_geometry r)],
                          {[length done_rows]} ∪ processed0)).
    { unfold outer_body.
      rewrite decide_False by (intros Hin; specialize (Hproc _ Hin); lia).
      unfold iloc_geometry. rewrite Hr. simpl.
      rewrite inner_scan_kept_apart; [done| |].
      - intros j Hj%elem_of_range. lia.
      - intros b Hb. simpl. apply Hkept; [|done]. by eapply list_elem_of_lookup_2. }
    rewrite Hstep. simpl. subst B.
    specialize (IH (done_rows ++ [r])
                  (merged_features ++ [merged_record [length done_rows] (row_geometry r)])
                  ({[length done_rows]} ∪ processed0)).
    rewrite length_app in IH. simpl in IH.
    replace (length done_rows + 1) with (S (length done_rows)) in IH by lia.
    rewrite <- !app_assoc in IH. simpl in IH.
    destruct IH as [processed' ->].
    + done.
    + intros x. rewrite elem_of_union, elem_of_singleton.
      intros [->|Hx]; [lia|]. specialize (Hproc _ Hx). lia.
    + by exists processed'.
Qed.

(** When every comparison keeps its two geometries apart, each input feature
    comes out as a cluster of its own. *)
Lemma merge_loop_passthrough (thr : Z) buffered_gdf :
  (∀ a b, a ∈ buffered_gdf → b ∈ buffered_gdf →
          kept_apart thr (row_geometry a) (row_geometry b)) →
  merge_loop thr buffered_gdf = Ok (passthrough 0 buffered_gdf).
Proof.
  intros Hkept. unfold merge_loop, range. rewrite Nat.sub_0_r.
  destruct (outer_loop_passthrough thr [] buffered_gdf [] ∅ Hkept) as [processed' Hrun];
    [set_solver|].
  simpl in Hrun. by rewrite Hrun.
Qed.




(** ** Polygon selector *)





Lemma elem_of_select_rows (select_poly : polygon) gdf (r : row) :
  r ∈ select_rows select_poly gdf
  ↔ r ∈ gdf ∧ contains select_poly (centroid (row_geometry r)) = true.
Proof.
  unfold select_rows. rewrite !list_elem_of_In, filter_In. done.
Qed.


(** C9, as the code has it.  The selector raises no error of its own and knows
    no [InvalidPolygonError]: when the library builds the polygon from the
    drawn ring the selection completes, and when the library raises, that
    exception is what the page's handler reports as
    ["Error processing file: ..."]. *)
Theorem polygon_selection_errors (ring : list (Q * Q)) (rest : list (list (Q * Q)))
    gdf :
  (∀ select_poly, Polygon ring = Ok select_poly →
     select_stage (Some (Drawing "Polygon" (ring :: rest))) gdf
     = Ok (Some (select_rows select_poly gdf)))
  ∧ (∀ e, Polygon ring = Raise e →
       select_stage (Some (Drawing "Polygon" (ring :: rest))) gdf = Raise e
       ∧ selection_section (Some (Drawing "Polygon" (ring :: rest))) gdf
         = Reported (processing_error e)
       ∧ exn_class e ≠ "InvalidPolygonError").
Proof.
  split.
  - intros select_poly Hpoly. unfold select_stage. simpl. by rewrite Hpoly.
  - intros e Hpoly. split_and!.
    + unfold select_stage. simpl. by rewrite Hpoly.
    + unfold selection_section, select_stage. simpl. by rewrite Hpoly.
    + by destruct e.
Qed.

(** ** CSV export *)

Lemma mapM_Ok_length {A B : Type} (f : A → result B) (xs : list A) (ys : list B) :
  mapM f xs = Ok ys → length ys = length xs.
Proof.
  revert ys. induction xs as [|x xs IH]; intros ys Hrun; simpl in Hrun.
  - by injection Hrun as <-.
  - apply bind_Ok in Hrun as (y & _ & Hrun).
    apply bind_Ok in Hrun as (ys' & Hys & Hrun). injection Hrun as <-.
    simpl. by rewrite (IH _ Hys).
Qed.

(** When every selected geometry has coordinates the CSV frame has one
    record per feature, the feature's properties with [latitude] and
    [longitude] set from the geometry. *)
Lemma csv_frame_points (selected_signals : list row) :
  (∀ r, r ∈ selected_signals →
        ∃ x y, geom_x (row_geometry r) = Ok x ∧ geom_y (row_geometry r) = Ok y) →
  ∃ output_df, csv_frame selected_signals = Ok output_df
               ∧ mapM csv_row selected_signals = Ok output_df
               ∧ length output_df = length selected_signals.
Proof.
  intros Hpts.
  assert (Hgen : ∃ xs ys,
            mapM geom_y (row_geometry <$> selected_signals) = Ok ys
            ∧ mapM geom_x (row_geometry <$> selected_signals) = Ok xs
            ∧ mapM csv_row selected_signals
              = Ok (zip_with (λ r x, set_column "longitude" (CNum x) r)
                      (zip_with (λ r y, set_column "latitude" (CNum y) r)
                         (row_props <$> selected_signals) ys) xs)).
  { induction selected_signals as [|r rs IH]; [by exists [], []|].
    destruct IH as (xs & ys & Hys & Hxs & Hrows).
    { intros r' Hr'. apply Hpts. by right. }
    destruct (Hpts r ltac:(left)) as (x & y & Hx & Hy).
    exists (x :: xs), (y :: ys).
    assert (Hrow : csv_row r = Ok (set_column "longitude" (CNum x)
                                     (set_column "latitude" (CNum y) (row_props r)))).
    { unfold csv_row. by rewrite Hy, Hx. }
    rewrite !fmap_cons. cbn [mapM].
    rewrite Hy, Hx, Hys, Hxs, Hrow. cbn [mbind result_bind]. by rewrite Hrows. }
  destruct Hgen as (xs & ys & Hys & Hxs & Hrows).
  eexists. unfold csv_frame. rewrite Hys. simpl. rewrite Hxs. simpl.
  split_and!; [done|done|].
  apply mapM_Ok_length in Hrows. done.
Qed.

(** A selected geometry without a [y] coordinate makes the export raise. *)
Lemma csv_frame_raises (selected_signals : list row) (r : row) (e : exn) :
  r ∈ selected_signals → geom_y (row_geometry r) = Raise e →
  ∃ e', csv_frame selected_signals = Raise e'.
Proof.
  intros Hr He. unfold csv_frame.
  assert (Hys : ∃ e', mapM geom_y (row_geometry <$> selected_signals) = Raise e').
  { induction selected_signals as [|r' rs IH]; [by apply not_elem_of_nil in Hr|].
    rewrite fmap_cons. cbn [mapM]. apply elem_of_cons in Hr as [<-|Hr].
    - rewrite He. by eexists.
    - destruct (geom_y (row_geometry r')); [|by eexists].
      destruct (IH Hr) as [e' ->]. by eexists. }
  destruct Hys as [e' ->]. by eexists.
Qed.

(** On an empty collection the merge loop ends well, but the reduction of
    line 207 divides by the number of input features: the stage raises and
    the handler of line 215 reports it.  (The maps drawn before that line are
    not part of the model.) *)
Lemma merge_section_empty (buffer_distance overlap_threshold : Z) :
  merge_loop overlap_threshold (buffer_frame buffer_distance []) = Ok []
  ∧ merge_stage buffer_distance overlap_threshold []
    = Raise (ZeroDivisionError "division by zero")
  ∧ merge_section buffer_distance overlap_threshold []
    = Reported ["Error during merging: division by zero";
                "Please try adjusting the buffer distance or overlap threshold."].
Proof. done. Qed.

(** ** The clusters behind the emitted features *)

Lemma StronglySorted_lt_seq (a m : nat) : StronglySorted lt (seq a m).
Proof.
  revert a. induction m as [|m IH]; intros a; simpl; constructor; [apply IH|].
  apply Forall_forall. intros x Hx%elem_of_seq. lia.
Qed.

Lemma StronglySorted_sublist {A : Type} (R : A → A → Prop) (l1 l2 : list A) :
  l1 `sublist_of` l2 → StronglySorted R l2 → StronglySorted R l1.
Proof.
  induction 1 as [|x l1 l2 Hsub IH|x l1 l2 Hsub IH]; intros Hs.
  - constructor.
  - apply StronglySorted_cons in Hs as [Hall Hs]. constructor; [by apply IH|].
    apply Forall_forall. intros y Hy.
    by apply (proj1 (Forall_forall _ _) Hall), (elem_of_sublist l1 l2).
  - apply StronglySorted_cons in Hs as [_ Hs]. by apply IH.
Qed.

Lemma iloc_geometry_inv buffered_gdf (j : nat) (g : geometry) :
  iloc_geometry buffered_gdf j = Ok g →
  ∃ r, buffered_gdf !! j = Some r ∧ g = row_geometry r.
Proof.
  unfold iloc_geometry. destruct (buffered_gdf !! j) as [r|]; [|done].
  intros [= <-]. by exists r.
Qed.

(** The scan absorbs a subsequence of the scanned indices, and the geometry
    it ends with is the union built member after member. *)
Lemma inner_scan_trace (thr : Z) buffered_gdf (js : list nat) st (st' : scan) :
  for_each (inner_body thr buffered_gdf) js st = Ok st' →
  ∃ new,
    current_group st' = current_group st ++ new
    ∧ processed st' = list_to_set new ∪ processed st
    ∧ new `sublist_of` js
    ∧ (∀ x, x ∈ new → x ∉ processed st)
    ∧ union_members buffered_gdf (current_geom st) new = Some (current_geom st').
Proof.
  revert st. induction js as [|j js IH]; intros st Hrun; simpl in Hrun.
  - injection Hrun as <-. exists []. rewrite app_nil_r.
    split_and!; [done|set_solver|constructor| |done].
    intros x Hx. by apply not_elem_of_nil in Hx.
  - apply bind_Ok in Hrun as (st1 & Hstep & Hrun).
    destruct (IH _ Hrun) as (new & Hg & Hp & Hsub & Hnew & Hgeom).
    destruct (inner_body_cases _ _ _ _ _ Hstep)
      as [->|(Hj & test_geom & pct & Hiloc & _ & _ & _ & ->)].
    + exists new. split_and!; [done|done|by constructor|done|done].
    + simpl in *. destruct (iloc_geometry_inv _ _ _ Hiloc) as (r & Hr & ->).
      exists (j :: new). split_and!.
      * by rewrite Hg, <- app_assoc.
      * rewrite Hp. set_solver.
      * by constructor.
      * intros x [->|Hx]%elem_of_cons; [done|]. specialize (Hnew x Hx). set_solver.
      * simpl. by rewrite Hr.
Qed.

(** One turn of the outer loop: nothing for a processed index, otherwise one
    more feature, for the cluster of the index and what the scan absorbed. *)
Lemma outer_body_step (thr : Z) buffered_gdf (i : nat)
    (merged_features : list record) (processed0 : gset nat)
    (acc' : list record * gset nat) :
  outer_body thr buffered_gdf (merged_features, processed0) i = Ok acc' →
  (i ∈ processed0 ∧ acc' = (merged_features, processed0))
  ∨ ((i ∉ processed0)
     ∧ ∃ new geom,
         new `sublist_of` range (i + 1) (length buffered_gdf)
         ∧ (∀ x, x ∈ new → x ∉ processed0)
         ∧ cluster_geometry buffered_gdf (i :: new) = Some geom
         ∧ acc' = (merged_features ++ [merged_record (i :: new) geom],
                   {[i]} ∪ (list_to_set new ∪ processed0))).
Proof.
  intros Hrun. simpl in Hrun.
  destruct (decide (i ∈ processed0)) as [Hin|Hout].
  { left. by injection Hrun as <-. }
  right. split; [done|].
  apply bind_Ok in Hrun as (g & Hg & Hrun).
  apply bind_Ok in Hrun as (st & Hscan & Hrun).
  injection Hrun as <-.
  destruct (inner_scan_trace _ _ _ _ _ Hscan) as (new & Hgrp & Hproc & Hsub & Hnew & Hgeom).
  simpl in Hgrp, Hproc, Hnew, Hgeom.
  destruct (iloc_geometry_inv _ _ _ Hg) as (r & Hr & ->).
  exists new, (current_geom st). rewrite Hgrp, Hproc. simpl.
  split_and!; [done|done| |done]. by rewrite Hr.
Qed.

Lemma traced_mono buffered_gdf (k k' : nat) (acc : list record * gset nat)
    (groups : list (list nat)) :
  k ≤ k' → traced buffered_gdf k acc groups → traced buffered_gdf k' acc groups.
Proof.
  intros Hk (Hshape & Hgroups & Hseeds & Hnd & Hmem & Hlt).
  split_and!; [done| |done..].
  eapply Forall_impl; [exact Hgroups|]. intros g (? & ? & ?). split_and!; [done|done|lia].
Qed.

Lemma outer_loop_traced (thr : Z) buffered_gdf (m k : nat)
    (acc acc' : list record * gset nat) (groups : list (list nat)) :
  k + m ≤ length buffered_gdf →
  traced buffered_gdf k acc groups →
  for_each (outer_body thr buffered_gdf) (seq k m) acc = Ok acc' →
  (∀ x, x ∈ acc.2 ∨ k ≤ x < k + m → x ∈ acc'.2)
  ∧ ∃ groups', traced buffered_gdf (k + m) acc' groups'.
Proof.
  revert k acc groups. induction m as [|m IH]; intros k acc groups Hkm Htr Hrun.
  - injection Hrun as <-. rewrite Nat.add_0_r. split; [|by exists groups].
    intros x [Hx|Hx]; [done|lia].
  - cbn [seq for_each] in Hrun. apply bind_Ok in Hrun as (acc1 & Hstep & Hrun).
    assert (Hnext : (∀ x, x ∈ acc.2 ∨ x = k → x ∈ acc1.2)
                    ∧ ∃ groups1, traced buffered_gdf (S k) acc1 groups1).
    { destruct acc as [merged_features processed0].
      destruct (outer_body_step _ _ _ _ _ _ Hstep)
        as [[Hin ->]|(Hout & new & geom & Hsub & Hnew & Hgeom & ->)].
      { split; [|exists groups; by apply (traced_mono _ k); [lia|]].
        simpl. intros x [Hx| ->]; done. }
      clear Hstep.
      destruct Htr as (Hshape & Hgroups & Hseeds & Hnd & Hmem & Hlt). simpl in *.
      assert (Hrange : ∀ x, x ∈ new → k < x < length buffered_gdf).
      { intros x Hx. pose proof (elem_of_sublist _ _ _ Hx Hsub) as Hr.
        apply elem_of_range in Hr. lia. }
      split; [set_solver|].
      exists (groups ++ [k :: new]). unfold traced. simpl. split_and!.
      - apply Forall2_app; [done|]. constructor; [|constructor]. by exists geom.
      - apply Forall_app. split.
        + eapply Forall_impl; [exact Hgroups|]. intros g (? & ? & ?).
          split_and!; [done|done|lia].
        + constructor; [|constructor]. split_and!; [done| |simpl; lia].
          constructor.
          * eapply StronglySorted_sublist; [exact Hsub|apply StronglySorted_lt_seq].
          * apply Forall_forall. intros x Hx. specialize (Hrange x Hx). lia.
      - rewrite fmap_app. apply StronglySorted_app. split_and!.
        + intros x1 x2 Hx1 Hx2. apply list_elem_of_singleton in Hx2 as ->. simpl.
          apply list_elem_of_fmap in Hx1 as (g & -> & Hg).
          by destruct (proj1 (Forall_forall _ _) Hgroups g Hg) as (_ & _ & ?).
        + done.
        + repeat constructor.
      - rewrite concat_app. simpl. rewrite app_nil_r. apply NoDup_app. split_and!.
        + done.
        + intros x Hx [->|Hxn]%elem_of_cons.
          * by apply Hout, Hmem.
          * by apply (Hnew x Hxn), Hmem.
        + constructor.
          * intros Hin. specialize (Hrange k Hin). lia.
          * eapply sublist_NoDup; [apply NoDup_seq|exact Hsub].
      - intros x. rewrite concat_app. simpl. rewrite app_nil_r.
        rewrite elem_of_app, elem_of_cons, Hmem. set_solver.
      - intros x. rewrite !elem_of_union, elem_of_singleton, elem_of_list_to_set.
        intros [->|[Hx|Hx]]; [lia| |by apply Hlt]. specialize (Hrange x Hx). lia. }
    destruct Hnext as (Hgrow & groups1 & Htr1).
    destruct (IH (S k) acc1 groups1 ltac:(lia) Htr1 Hrun) as (Hcover & groups' & Htr').
    replace (k + S m) with (S k + m) by lia. split; [|by exists groups'].
    intros x [Hx|Hx].
    + apply Hcover. left. apply Hgrow. by left.
    + destruct (decide (x = k)) as [->|Hne].
      * apply Hcover. left. apply Hgrow. by right.
      * apply Hcover. right. lia.
Qed.

(** What the merge loop returns, cluster by cluster. *)
Lemma merge_loop_trace (thr : Z) buffered_gdf (merged_features : list record) :
  merge_loop thr buffered_gdf = Ok merged_features →
  ∃ groups,
    Forall2 (emitted_for buffered_gdf) merged_features groups
    ∧ Forall (λ g, g ≠ [] ∧ StronglySorted lt g) groups
    ∧ StronglySorted lt (seed <$> groups)
    ∧ concat groups ≡ₚ seq 0 (length buffered_gdf).
Proof.
  unfold merge_loop, range. rewrite Nat.sub_0_r. intros Hrun.
  destruct (for_each _ _ _) as [[merged processed']|e] eqn:Hloop; [|done].
  injection Hrun as <-.
  assert (Hinit : traced buffered_gdf 0 ([], ∅) []).
  { split_and!; [constructor|constructor|constructor|constructor|set_solver|set_solver]. }
  destruct (outer_loop_traced thr buffered_gdf (length buffered_gdf) 0 _ _ _
              (Nat.le_refl _) Hinit Hloop)
    as (Hcover & groups & Hshape & Hgroups & Hseeds & Hnd & Hmem & Hlt).
  simpl in *. exists groups. split_and!; [done| |done|].
  - eapply Forall_impl; [exact Hgroups|]. by intros g (? & ? & _).
  - apply NoDup_Permutation; [done|apply NoDup_seq|].
    intros x. rewrite Hmem, elem_of_seq. split.
    + intros Hx. specialize (Hlt x Hx). lia.
    + intros Hx. apply Hcover. right. lia.
Qed.

(** X1. The features the merge loop emits are the records of clusters of
    input indices: the geometry of a feature is the union of the members'
    buffers taken one after the other from the seed on, its count the size of
    the cluster, its center the centroid of that union.  The members of a
    cluster ascend, the clusters come in ascending order of their seeds, and
    every input index is in exactly one cluster. *)
Theorem merged_features_are_clusters (overlap_threshold : Z) buffered_gdf
    (merged_features : list record) :
  merge_loop overlap_threshold buffered_gdf = Ok merged_features →
  ∃ groups,
    Forall2 (emitted_for buffered_gdf) merged_features groups
    ∧ Forall (λ g, g ≠ [] ∧ StronglySorted lt g) groups
    ∧ StronglySorted lt (seed <$> groups)
    ∧ concat groups ≡ₚ seq 0 (length buffered_gdf).
Proof. apply merge_loop_trace. Qed.

Lemma length_concat_nonempty {A : Type} (groups : list (list A)) :
  Forall (λ g, g ≠ []) groups → length groups ≤ length (concat groups).
Proof.
  induction 1 as [|g groups Hg _ IH]; simpl; [done|].
  rewrite length_app. destruct g; [done|]. simpl. lia.
Qed.

Lemma emitted_for_count buffered_gdf (r : record) (g : list nat) :
  emitted_for buffered_gdf r g → original_count r = Z.of_nat (length g).
Proof. by intros (geom & _ & ->). Qed.

(** The loop emits no more features than it was given, and some when it was
    given any. *)
Lemma merged_features_number_aux (thr : Z) buffered_gdf
    (merged_features : list record) :
  merge_loop thr buffered_gdf = Ok merged_features →
  length merged_features ≤ length buffered_gdf
  ∧ (buffered_gdf ≠ [] → merged_features ≠ []).
Proof.
  intros Hrun.
  destruct (merge_loop_trace _ _ _ Hrun) as (groups & Hshape & Hgroups & _ & Hperm).
  assert (Hne : Forall (λ g : list nat, g ≠ []) groups).
  { eapply Forall_impl; [exact Hgroups|]. by intros g [? _]. }
  assert (Hlen : length merged_features = length groups) by by eapply Forall2_length.
  assert (Hsum : length (concat groups) = length buffered_gdf).
  { by rewrite Hperm, length_seq. }
  split.
  - rewrite Hlen, <- Hsum. by apply length_concat_nonempty.
  - intros Hrows ->. destruct groups; [|done]. simpl in Hsum.
    destruct buffered_gdf; [done|]. simpl in Hsum. lia.
Qed.

(** X2. Every emitted feature has [original_count] at least 1, the loop emits
    no more features than it was given, and at least one when it was given
    any. *)
Theorem merged_features_number (overlap_threshold : Z) buffered_gdf
    (merged_features : list record) :
  merge_loop overlap_threshold buffered_gdf = Ok merged_features →
  Forall (λ r, (1 ≤ original_count r)%Z) merged_features
  ∧ length merged_features ≤ length buffered_gdf
  ∧ (buffered_gdf ≠ [] → merged_features ≠ []).
Proof.
  intros Hrun. destruct (merged_features_number_aux _ _ _ Hrun) as [Hle Hsome].
  split_and!; [|done|done].
  destruct (merge_loop_trace _ _ _ Hrun) as (groups & Hshape & Hgroups & _ & _).
  clear Hrun Hle Hsome.
  induction Hshape as [|r g rs gs Hrg _ IH]; [constructor|].
  apply Forall_cons in Hgroups as [[Hg _] Hgroups]. constructor; [|by apply IH].
  rewrite (emitted_for_count _ _ _ Hrg). destruct g; [done|]. simpl. lia.
Qed.

(** ** What the merge stage can raise *)




Lemma row_of_merged_record (group : list nat) (geom : geometry) :
  row_of_record (merged_record group geom) = Ok (merged_row group geom).
Proof. reflexivity. Qed.

(** The merged frame is built from the emitted features without an error,
    row by row. *)
Lemma GeoDataFrame_emitted buffered_gdf (merged_features : list record)
    (groups : list (list nat)) :
  Forall2 (emitted_for buffered_gdf) merged_features groups →
  ∃ merged, GeoDataFrame merged_features = Ok merged
            ∧ length merged = length merged_features
            ∧ Forall (λ r, keys (row_props r) = ["original_count"; "center"]) merged.
Proof.
  induction 1 as [|r g rs gs (geom & _ & ->) _ (merged & Hm & Hlen & Hkeys)].
  - by exists [].
  - exists (merged_row g geom :: merged). simpl. rewrite Hm. simpl.
    split_and!; [done|by rewrite Hlen|by constructor].
Qed.


(** X4. When the merge stage returns, the collection was not empty, the
    merged frame has between 1 and as many rows as the input, its columns
    besides the geometry are [original_count] and [center], and the
    reduction is [(n - m) / n * 100], at least 0 and below 100. *)
Theorem merge_stage_returns (buffer_distance overlap_threshold : Z) gdf
    (merged : list row) (reduction : Q) :
  merge_stage buffer_distance overlap_threshold gdf = Ok (merged, reduction) →
  gdf ≠ []
  ∧ 1 ≤ length merged ≤ length gdf
  ∧ Forall (λ r, keys (row_props r) = ["original_count"; "center"]) merged
  ∧ reduction
    = (inject_Z (Z.of_nat (length gdf) - Z.of_nat (length merged))
       / inject_Z (Z.of_nat (length gdf)) * 100)%Q
  ∧ (0 <= reduction)%Q ∧ (reduction < 100)%Q.
Proof.
  intros Hrun. unfold merge_stage in Hrun.
  apply bind_Ok in Hrun as (merged_features & Hloop & Hrun).
  apply bind_Ok in Hrun as (merged' & Hframe & Hrun).
  apply bind_Ok in Hrun as (q & Hq & Hrun). injection Hrun as -> <-.
  destruct (merge_loop_trace _ _ _ Hloop) as (groups & Hshape & _).
  destruct (GeoDataFrame_emitted _ _ _ Hshape) as (merged2 & Hm & Hlen & Hkeys).
  rewrite Hframe in Hm. injection Hm as <-.
  destruct (merged_features_number_aux overlap_threshold
              (buffer_frame buffer_distance gdf) merged_features Hloop) as (Hle & Hne).
  rewrite length_buffer_frame in Hle.
  assert (Hgdf : gdf ≠ []).
  { intros ->. by vm_compute in Hq. }
  assert (Hpos : 1 ≤ length merged).
  { rewrite Hlen. destruct merged_features; [|simpl; lia].
    exfalso. apply Hne; [|done]. by destruct gdf. }
  unfold int_div, true_div in Hq.
  destruct (Qeq_bool _ _); [done|]. injection Hq as <-.
  set (n := Z.of_nat (length gdf)) in *. set (m := Z.of_nat (length merged)) in *.
  assert (Hn : (0 < inject_Z n)%Q) by (unfold Qlt; simpl; lia).
  assert (Hq0 : (0 <= inject_Z (n - m) / inject_Z n)%Q).
  { apply Qle_shift_div_l; [done|]. rewrite Qmult_0_l. unfold Qle. simpl. lia. }
  assert (Hq1 : (inject_Z (n - m) / inject_Z n < 1)%Q).
  { apply Qlt_shift_div_r; [done|]. rewrite Qmult_1_l. unfold Qlt. simpl. lia. }
  split_and!; [done|lia|lia|done|done| |].
  - apply (Qmult_le_compat_r _ _ 100) in Hq0; [|done]. by rewrite Qmult_0_l in Hq0.
  - apply (Qmult_lt_compat_r _ _ 100) in Hq1; [|done]. by rewrite Qmult_1_l in Hq1.
Qed.

(** X5. At threshold 100 nothing is merged.  With areas that are not negative,
    intersections no larger than what they intersect, and no intersecting
    pair of rows with a zero [min_area], every input feature comes out as a
    cluster of its own, in input order. *)
Theorem threshold_100_merges_nothing buffered_gdf :
  (∀ g, (0 <= area g)%Q) →
  (∀ a b, (area (intersection a b) <= area a)%Q
          ∧ (area (intersection a b) <= area b)%Q) →
  (∀ a b, a ∈ buffered_gdf → b ∈ buffered_gdf →
          intersects (row_geometry a) (row_geometry b) = true →
          ¬ (pymin (area (row_geometry a)) (area (row_geometry b)) == 0)%Q) →
  merge_loop 100 buffered_gdf = Ok (passthrough 0 buffered_gdf).
Proof.
  intros Hpos Hsub Hmin. apply merge_loop_passthrough. intros a b Ha Hb.
  destruct (intersects (row_geometry a) (row_geometry b)) eqn:Hint; [|by left].
  right. specialize (Hmin a b Ha Hb Hint).
  rewrite (overlap_percentage_Ok _ _ Hmin). eexists. split; [done|].
  apply Qlt_b_false. change (inject_Z 100) with 100%Q.
  set (inter := area (intersection (row_geometry a) (row_geometry b))) in *.
  set (m := pymin (area (row_geometry a)) (area (row_geometry b))) in *.
  assert (Hm : (0 < m)%Q).
  { destruct (Qlt_le_dec 0 m) as [|Hle]; [done|]. exfalso. apply Hmin.
    apply Qle_antisym; [done|].
    destruct (pymin_cases (area (row_geometry a)) (area (row_geometry b))) as [E|E];
      unfold m; rewrite E; apply Hpos. }
  assert (Hle : (inter <= m)%Q).
  { destruct (Hsub (row_geometry a) (row_geometry b)) as [Hl Hr].
    destruct (pymin_cases (area (row_geometry a)) (area (row_geometry b))) as [E|E];
      unfold m; by rewrite E. }
  assert (H1 : (inter / m <= 1)%Q).
  { apply Qle_shift_div_r; [done|]. by rewrite Qmult_1_l. }
  apply (Qmult_le_compat_r _ _ 100) in H1; [|done]. by rewrite Qmult_1_l in H1.
Qed.

(** ** Property filter, further *)

Lemma filter_twice {A : Type} (f : A → bool) (l : list A) :
  List.filter f (List.filter f l) = List.filter f l.
Proof.
  induction l as [|x l IH]; [done|]. simpl.
  destruct (f x) eqn:Hx; [|done]. simpl. by rewrite Hx, IH.
Qed.

Lemma filter_swap {A : Type} (f g : A → bool) (l : list A) :
  List.filter f (List.filter g l) = List.filter g (List.filter f l).
Proof.
  induction l as [|x l IH]; [done|]. simpl.
  destruct (f x) eqn:Hf, (g x) eqn:Hg; simpl; rewrite ?Hf, ?Hg, IH; done.
Qed.

Lemma filter_sublist_of {A : Type} (f : A → bool) (l : list A) :
  List.filter f l `sublist_of` l.
Proof. induction l as [|x l IH]; simpl; [constructor|]. destruct (f x); by constructor. Qed.

(** X6. With values selected, the property filter keeps, in input order,
    exactly the rows whose value in the column is among them; a row that
    lacks the key is dropped unless a missing value is selected; filtering
    the result again changes nothing. *)
Theorem property_filter_selected (selected_column : string)
    (selected_values : list cell) gdf :
  selected_values ≠ [] →
  let kept := property_filter selected_column selected_values gdf in
  kept `sublist_of` gdf
  ∧ (∀ r, r ∈ kept ↔ r ∈ gdf
                      ∧ isin (column_value selected_column r) selected_values = true)
  ∧ (∀ r, get selected_column (row_props r) = None →
          isin CNull selected_values = false → r ∉ kept)
  ∧ property_filter selected_column selected_values kept = kept.
Proof.
  intros Hsel kept. unfold kept, property_filter.
  destruct selected_values as [|v vs]; [done|].
  set (keep := λ r, isin (column_value selected_column r) (v :: vs)).
  assert (Hmem : ∀ r, r ∈ List.filter keep gdf ↔ r ∈ gdf ∧ keep r = true).
  { intros r. by rewrite !list_elem_of_In, filter_In. }
  split_and!.
  - apply filter_sublist_of.
  - exact Hmem.
  - intros r Hnone Hnull [_ Hkeep]%Hmem. unfold keep, column_value in Hkeep.
    rewrite Hnone in Hkeep. change (isin CNull (v :: vs) = true) in Hkeep.
    congruence.
  - apply filter_twice.
Qed.

(** X7. The property filter and the polygon selection commute: selecting
    among the filtered rows gives the rows filtered from the selection. *)
Theorem filter_select_commute (selected_column : string)
    (selected_values : list cell) (select_poly : polygon) gdf :
  select_rows select_poly (property_filter selected_column selected_values gdf)
  = property_filter selected_column selected_values (select_rows select_poly gdf).
Proof.
  unfold property_filter, select_rows.
  destruct selected_values; [done|]. apply filter_swap.
Qed.

(** ** CSV export, further *)

Lemma get_set_column_eq (name : string) (v : cell) (r : record) :
  get name (set_column name v r) = Some v.
Proof.
  induction r as [|[k w] r IH]; simpl.
  - by rewrite decide_True.
  - destruct (decide (k = name)) as [->|Hne]; simpl.
    + by rewrite decide_True.
    + by rewrite decide_False.
Qed.

Lemma get_set_column_ne (name k : string) (v : cell) (r : record) :
  k ≠ name → get k (set_column name v r) = get k r.
Proof.
  intros Hk. induction r as [|[k' w] r IH]; simpl.
  - destruct (decide (name = k)); [congruence|done].
  - destruct (decide (k' = name)) as [->|Hne]; simpl.
    + destruct (decide (name = k)); [congruence|done].
    + by rewrite IH.
Qed.

Lemma keys_set_column (name : string) (v : cell) (r : record) :
  keys (set_column name v r)
  = if decide (name ∈ keys r) then keys r else keys r ++ [name].
Proof.
  unfold keys. induction r as [|[k w] r IH].
  - destruct (decide (name ∈ ([] : record).*1)) as [Hin|_]; [|done].
    by apply not_elem_of_nil in Hin.
  - cbn [set_column]. rewrite fmap_cons. cbn [fst].
    destruct (decide (k = name)) as [->|Hne].
    + rewrite fmap_cons. cbn [fst].
      destruct (decide (name ∈ name :: r.*1)) as [_|Hout]; [done|].
      exfalso. apply Hout. left.
    + rewrite fmap_cons, IH. cbn [fst].
      destruct (decide (name ∈ r.*1)) as [Hin|Hout],
               (decide (name ∈ k :: r.*1)) as [Hin'|Hout']; try done.
      * exfalso. apply Hout'. by right.
      * apply elem_of_cons in Hin' as [->|?]; done.
Qed.

(** X8. Setting a column of a record: the column then reads as the value set,
    every other column reads as before, and the column keeps its place when
    the record had it and goes last when it had not. *)
Theorem set_column_lookup (name : string) (v : cell) (r : record) :
  get name (set_column name v r) = Some v
  ∧ (∀ k, k ≠ name → get k (set_column name v r) = get k r)
  ∧ (name ∈ keys r → keys (set_column name v r) = keys r)
  ∧ (name ∉ keys r → keys (set_column name v r) = keys r ++ [name]).
Proof.
  split_and!.
  - apply get_set_column_eq.
  - intros k Hk. by apply get_set_column_ne.
  - intros Hin. by rewrite keys_set_column, decide_True.
  - intros Hout. by rewrite keys_set_column, decide_False.
Qed.

Lemma mapM_Ok_Forall2 {A B : Type} (f : A → result B) (xs : list A) (ys : list B) :
  mapM f xs = Ok ys ↔ Forall2 (λ x y, f x = Ok y) xs ys.
Proof.
  revert ys. induction xs as [|x xs IH]; intros ys; simpl; split.
  - intros [= <-]. constructor.
  - by inversion 1.
  - intros Hrun. apply bind_Ok in Hrun as (y & Hy & Hrun).
    apply bind_Ok in Hrun as (ys' & Hys & Hrun). injection Hrun as <-.
    constructor; [done|]. by apply IH.
  - inversion 1 as [|? y ? ys' Hy Hys]; subst. rewrite Hy. simpl.
    apply IH in Hys. by rewrite Hys.
Qed.

(** When the CSV frame is built, it is built record by record. *)
Lemma csv_frame_Ok_inv (selected_signals : list row) (output_df : list record) :
  csv_frame selected_signals = Ok output_df →
  Forall2 (λ r rec, csv_row r = Ok rec) selected_signals output_df.
Proof.
  unfold csv_frame. intros Hrun.
  apply bind_Ok in Hrun as (ys & Hys & Hrun).
  apply bind_Ok in Hrun as (xs & Hxs & Hrun). injection Hrun as <-.
  apply mapM_Ok_Forall2 in Hys. apply mapM_Ok_Forall2 in Hxs.
  revert ys xs Hys Hxs.
  induction selected_signals as [|r rs IH]; intros ys xs Hys Hxs.
  - apply Forall2_nil_inv_l in Hys as ->. apply Forall2_nil_inv_l in Hxs as ->.
    constructor.
  - rewrite fmap_cons in Hys, Hxs.
    apply Forall2_cons_inv_l in Hys as (y & ys' & Hy & Hys' & ->).
    apply Forall2_cons_inv_l in Hxs as (x & xs' & Hx & Hxs' & ->).
    rewrite fmap_cons. simpl. constructor; [|by apply IH].
    unfold csv_row. by rewrite Hy, Hx.
Qed.

(** X9. When the CSV frame is built it has one record per selected feature,
    in order; [latitude] reads as the [y] and [longitude] as the [x] of the
    feature's geometry, also when the feature had properties of these names,
    and every other property reads as in the feature. *)
Theorem csv_frame_records (selected_signals : list row) (output_df : list record) :
  csv_frame selected_signals = Ok output_df →
  length output_df = length selected_signals
  ∧ Forall2 (λ r rec,
       ∃ x y, geom_x (row_geometry r) = Ok x
              ∧ geom_y (row_geometry r) = Ok y
              ∧ get "latitude" rec = Some (CNum y)
              ∧ get "longitude" rec = Some (CNum x)
              ∧ ∀ k, k ≠ "latitude" → k ≠ "longitude" →
                     get k rec = get k (row_props r))
       selected_signals output_df.
Proof.
  intros Hrun%csv_frame_Ok_inv. split; [symmetry; by eapply Forall2_length|].
  eapply Forall2_impl; [exact Hrun|]. intros r rec Hrow. unfold csv_row in Hrow.
  apply bind_Ok in Hrow as (y & Hy & Hrow).
  apply bind_Ok in Hrow as (x & Hx & Hrow). injection Hrow as <-.
  exists x, y. split_and!; [done|done| |apply get_set_column_eq|].
  - rewrite get_set_column_ne by done. apply get_set_column_eq.
  - intros k Hlat Hlon. by rewrite !get_set_column_ne.
Qed.

(** X10. The CSV frame is all or nothing: it is built exactly when every
    selected geometry has an [x] and a [y]; one geometry without them and no
    record is produced at all. *)
Theorem csv_frame_all_or_nothing (selected_signals : list row) :
  (∃ output_df, csv_frame selected_signals = Ok output_df)
  ↔ Forall (λ r, (∃ x, geom_x (row_geometry r) = Ok x)
                 ∧ (∃ y, geom_y (row_geometry r) = Ok y)) selected_signals.
Proof.
  split.
  - intros [output_df Hrun%csv_frame_Ok_inv].
    induction Hrun as [|r rec rs recs Hrow _ IH]; constructor; [|done].
    unfold csv_row in Hrow.
    apply bind_Ok in Hrow as (y & Hy & Hrow).
    apply bind_Ok in Hrow as (x & Hx & _). split; by eexists.
  - intros Hall. destruct (csv_frame_points selected_signals) as (out & Hout & _).
    + intros r Hr. destruct (proj1 (Forall_forall _ _) Hall r Hr) as [[x Hx] [y Hy]].
      by exists x, y.
    + by exists out.
Qed.

(** X11. On a collection whose geometries all have coordinates, with a ring
    the library accepts, the selection section reports no error: it ends with
    the selected rows and, when there are any, a CSV frame with one record
    per selected row; an empty selection gets no download. *)
Theorem selection_section_points (ring : list (Q * Q)) (rest : list (list (Q * Q)))
    gdf (select_poly : polygon) :
  Polygon ring = Ok select_poly →
  (∀ r, r ∈ gdf → ∃ x y, geom_x (row_geometry r) = Ok x
                         ∧ geom_y (row_geometry r) = Ok y) →
  let selected_signals := select_rows select_poly gdf in
  ∃ download,
    selection_section (Some (Drawing "Polygon" (ring :: rest))) gdf
    = Done (Some (selected_signals, download))
    ∧ match download with
      | None => selected_signals = []
      | Some output_df =>
          selected_signals ≠ []
          ∧ csv_frame selected_signals = Ok output_df
          ∧ length output_df = length selected_signals
      end.
Proof.
  intros Hpoly Hpts selected_signals.
  unfold selection_section, select_stage. simpl. rewrite Hpoly. simpl.
  fold selected_signals.
  destruct selected_signals as [|r rs] eqn:Hsel; [by exists None|].
  destruct (csv_frame_points (r :: rs)) as (out & Hout & _ & Hlen).
  { intros r' Hr'. apply Hpts. rewrite <- Hsel in Hr'.
    by apply elem_of_select_rows in Hr' as [? _]. }
  rewrite Hout. by exists (Some out).
Qed.

(** ** File type *)

Lemma split_nonempty (sep : ascii) (s : string) : split sep s ≠ [].
Proof.
  destruct s as [|c s]; simpl; [done|].
  destruct (decide (c = sep)); [done|]. by destruct (split sep s).
Qed.

(** Splitting distributes over a separator between two strings. *)
Lemma split_app (sep : ascii) (s1 s2 : string) :
  split sep (s1 +:+ String sep s2) = split sep s1 ++ split sep s2.
Proof.
  induction s1 as [|c s1 IH]; simpl.
  - by rewrite decide_True.
  - destruct (decide (c = sep)); [by rewrite IH|].
    rewrite IH. pose proof (split_nonempty sep s1) as Hne.
    by destruct (split sep s1).
Qed.

Lemma split_dot_free (s : string) : dot_free s = true → split "." s = [s].
Proof.
  induction s as [|c s IH]; simpl; [done|].
  intros [Hc Hs]%andb_true_iff. apply negb_true_iff, bool_decide_eq_false in Hc.
  rewrite decide_False by done. by rewrite (IH Hs).
Qed.

Lemma last_app_nonempty {A : Type} (l1 l2 : list A) (d : A) :
  l2 ≠ [] → List.last (l1 ++ l2) d = List.last l2 d.
Proof.
  intros Hne. induction l1 as [|x l1 IH]; [done|].
  simpl. rewrite IH. destruct (l1 ++ l2) eqn:E; [|done].
  apply app_eq_nil in E as [_ ?]. done.
Qed.

(** X12. The file type is what follows the last ['.'] of the file name, in
    lower case, so the extension is matched whatever its case; a name without
    a ['.'] is its own file type. *)
Theorem file_type_extension (stem ext : string) :
  dot_free ext = true →
  file_type (stem +:+ String "." ext) = lower ext
  ∧ file_type ext = lower ext.
Proof.
  intros Hext. unfold file_type. split.
  - rewrite split_app, last_app_nonempty by apply split_nonempty.
    by rewrite (split_dot_free _ Hext).
  - by rewrite (split_dot_free _ Hext).
Qed.

(** ** When the merge stage returns *)

Lemma for_each_returns_inv {A S : Type} (P : S → Prop) (body : S → A → result S)
    (xs : list A) (s : S) :
  (∀ t x, x ∈ xs → P t → ∃ t', body t x = Ok t' ∧ P t') →
  P s → ∃ s', for_each body xs s = Ok s' ∧ P s'.
Proof.
  revert s. induction xs as [|x xs IH]; intros s Hbody Hs; simpl; [by exists s|].
  destruct (Hbody s x ltac:(left) Hs) as (s1 & -> & Hs1). simpl.
  apply IH; [|done]. intros t y Hy. apply Hbody. by right.
Qed.

Lemma pymin_pos (a b : Q) : (0 < a)%Q → (0 < b)%Q → ¬ (pymin a b == 0)%Q.
Proof.
  intros Ha Hb Hz. destruct (pymin_cases a b) as [E|E]; rewrite E in Hz;
    [rewrite Hz in Ha; by apply Qlt_irrefl in Ha
    |rewrite Hz in Hb; by apply Qlt_irrefl in Hb].
Qed.

(** With buffers of positive area, and unions of positive area, the scan
    divides by no zero. *)
Lemma merge_loop_positive_areas (thr : Z) buffered_gdf :
  (∀ r, r ∈ buffered_gdf → (0 < area (row_geometry r))%Q) →
  (∀ a b, (0 < area a)%Q → (0 < area b)%Q → (0 < area (unary_union [a; b]))%Q) →
  ∃ merged_features, merge_loop thr buffered_gdf = Ok merged_features.
Proof.
  intros Hrows Hunion.
  assert (Hinner : ∀ st j, j < length buffered_gdf → (0 < area (current_geom st))%Q →
            ∃ st', inner_body thr buffered_gdf st j = Ok st'
                   ∧ (0 < area (current_geom st'))%Q).
  { intros st j Hj Hcur. unfold inner_body.
    destruct (decide (j ∈ processed st)); [by eexists|].
    destruct (iloc_geometry_Ok _ _ Hj) as (r & Hr & ->). simpl.
    pose proof (Hrows r (list_elem_of_lookup_2 _ _ _ Hr)) as Htest.
    destruct (intersects _ _); [|by eexists].
    rewrite (overlap_percentage_Ok _ _ (pymin_pos _ _ Hcur Htest)). simpl.
    destruct (Qlt_b _ _); eexists; (split; [done|]); [|done].
    simpl. by apply Hunion. }
  unfold merge_loop.
  destruct (for_each_returns (outer_body thr buffered_gdf)
              (range 0 (length buffered_gdf)) ([], ∅)) as [acc ->]; [|by eexists].
  intros [merged_features processed0] i Hi%elem_of_range. unfold outer_body.
  destruct (decide (i ∈ processed0)); [by eexists|].
  destruct (iloc_geometry_Ok buffered_gdf i ltac:(lia)) as (r & Hr & ->). simpl.
  destruct (for_each_returns_inv (λ st, (0 < area (current_geom st))%Q)
              (inner_body thr buffered_gdf)
              (range (i + 1) (length buffered_gdf))
              (Scan [i] (row_geometry r) processed0)) as (st & -> & _); [| |by eexists].
  - intros t j Hj%elem_of_range Ht. apply Hinner; [lia|done].
  - simpl. apply Hrows. by eapply list_elem_of_lookup_2.
Qed.

(** X13. For a collection that is not empty, whose buffers all have a
    positive area, with a library in which the union of two geometries of
    positive area has a positive area, the merge stage raises nothing: it
    returns a merged frame and a reduction. *)
Theorem merge_stage_positive_areas (buffer_distance overlap_threshold : Z) gdf :
  gdf ≠ [] →
  (∀ r, r ∈ buffer_frame buffer_distance gdf → (0 < area (row_geometry r))%Q) →
  (∀ a b, (0 < area a)%Q → (0 < area b)%Q → (0 < area (unary_union [a; b]))%Q) →
  ∃ merged reduction,
    merge_stage buffer_distance overlap_threshold gdf = Ok (merged, reduction).
Proof.
  intros Hgdf Hrows Hunion.
  destruct (merge_loop_positive_areas overlap_threshold _ Hrows Hunion)
    as [merged_features Hloop].
  destruct (merge_loop_trace _ _ _ Hloop) as (groups & Hshape & _).
  destruct (GeoDataFrame_emitted _ _ _ Hshape) as (merged & Hm & _ & _).
  unfold merge_stage. rewrite Hloop. simpl. rewrite Hm. simpl.
  unfold int_div, true_div.
  destruct (Qeq_bool _ _) eqn:Hz; [|by eexists _, _].
  exfalso. apply Qeq_bool_iff in Hz. unfold Qeq in Hz. simpl in Hz.
  destruct gdf; [done|]. simpl in Hz. lia.
Qed.

End Properties.

(** * The script on the executable geometry *)

Import Raster.

(** ** The raster geometry keeps the library's contracts *)


Lemma raster_area_nonneg (g : geometry) : (0 <= area g)%Q.
Proof. destruct g as [x y|c]; simpl; unfold Qle; simpl; lia. Qed.


(** ** The merger on concrete inputs *)

(** C1, on the code.  The three points at (0,0), (0,0.0001) and (10,10) with
    buffer distance 50 and threshold 50: the distance reaches the library as
    50 coordinate units, the three buffers overlap by more than half, and the
    merge loop emits a single feature with [original_count = 3]. *)
Theorem three_points_buffer_50 :
  emitted_counts (merge_loop 50 (buffer_frame 50 three_points))
  = Ok [3%Z].
Proof. vm_compute. reflexivity. Qed.

(** With buffers that only reach the neighbour (5 units) the same loop gives
    the two clusters of sizes 2 and 1. *)
Lemma three_points_buffer_5 :
  emitted_counts (merge_loop 50 (buffer_frame 5 three_points))
  = Ok [2%Z; 1%Z].
Proof. vm_compute. reflexivity. Qed.

(** The run that defines [three_points_merged]. *)
Lemma three_points_merged_run :
  merge_loop 50 (buffer_frame 5 three_points) = Ok three_points_merged.
Proof. reflexivity. Defined.

(** The counts of that run add up to the three input features. *)
Lemma original_count_sum_witness :
  total_count three_points_merged = 3%Z
  ∧ ∃ groups, counts_groups three_points_merged groups
              ∧ concat groups ≡ₚ seq 0 3.
Proof.
  apply (original_count_sum 5 50 three_points three_points_merged).
  exact three_points_merged_run.
Defined.

(** The features of that run carry the three keys only. *)
Lemma merged_features_fields_witness :
  Forall (λ r, keys r = ["geometry"; "original_count"; "center"]) three_points_merged
  ∧ ∀ buffered_gdf',
      row_geometry <$> buffered_gdf' = row_geometry <$> buffer_frame 5 three_points →
      merge_loop 50 buffered_gdf' = Ok three_points_merged.
Proof.
  apply (merged_features_fields 50 (buffer_frame 5 three_points) three_points_merged).
  exact three_points_merged_run.
Defined.


(** Buffers of radius 5 around (0,0) and (6,0) share 25 of 81 cells: at
    threshold 100 the second is not absorbed. *)
Lemma threshold_100_partial_overlap_witness :
  let st := Scan [0] (Cells (disc 0 0 5)) ∅ in
  inner_body 100 (buffer_frame 5 two_points) st 1 = Ok st.
Proof.
  intros st.
  apply (threshold_100_partial_overlap (buffer_frame 5 two_points) st 1
           (Cells (disc 6 0 5)) raster_area_nonneg).
  - reflexivity.
  - vm_compute. reflexivity.
Defined.



(** ** The selector and the export on concrete inputs *)


(** C9, on the code.  A drawing with two vertices: the library's constructor
    raises a [ValueError], and the page reports it under
    ["Error processing file"]; no [InvalidPolygonError] is involved. *)
Lemma two_vertices_value_error :
  select_stage (Some (Drawing "Polygon" [two_vertices])) four_points
    = Raise (ValueError "A linearring requires at least 4 coordinates.")
  ∧ (exn_class (ValueError "A linearring requires at least 4 coordinates.")
     ≠ "InvalidPolygonError")
  ∧ selection_section (Some (Drawing "Polygon" [two_vertices])) four_points
    = Reported ["Error processing file: A linearring requires at least 4 coordinates.";
                "Please check your file format and try again."].
Proof. split_and!; [reflexivity|discriminate|reflexivity]. Qed.

(** The square is selected with; the drawing with two vertices is reported. *)
Lemma polygon_selection_errors_witness :
  select_stage (Some square_drawing) four_points
    = Ok (Some (select_rows square four_points))
  ∧ selection_section (Some (Drawing "Polygon" [two_vertices])) four_points
    = Reported (processing_error
                  (ValueError "A linearring requires at least 4 coordinates.")).
Proof.
  split.
  - apply (proj1 (polygon_selection_errors square [] four_points) square). reflexivity.
  - apply (proj2 (polygon_selection_errors two_vertices [] four_points)
             (ValueError "A linearring requires at least 4 coordinates.")).
    reflexivity.
Defined.

(** The CSV frame of the single point feature at (lon = -122.4, lat = 37.8). *)
Lemma csv_frame_one_point :
  csv_frame one_point
  = Ok [[("latitude", CNum (378 # 10)); ("longitude", CNum (-1224 # 10))]].
Proof. reflexivity. Qed.

(** C7, on the code.  The point at (-122.4, 37.8) is merged (buffer 25,
    threshold 50), the merged feature is used for the selection and a polygon
    is drawn around it: the merged geometry is no point, reading its [y]
    raises, and the page reports an error where the CSV was to be. *)
Theorem csv_export_of_merged_feature :
  ∃ merged reduction,
    merge_stage 25 50 one_point = Ok (merged, reduction)
    ∧ length (select_rows (coordinates lasso !!! 0) merged) = 1
    ∧ selection_section (Some lasso) merged
      = Reported (processing_error
          (ValueError "y attribute access only provided for Point geometries")).
Proof.
  eexists _, _. split_and!; reflexivity.
Qed.

(** ** Further runs on the executable geometry *)

Lemma cells_inter_length (c c' : list (Z * Z)) :
  length (cells_inter c c') ≤ length c ∧ length (cells_inter c c') ≤ length c'.
Proof.
  revert c'. induction c as [|a c IH]; intros c'.
  { destruct c'; simpl; lia. }
  induction c' as [|b c' IH']; [simpl; lia|].
  change (cells_inter (a :: c) (b :: c'))
    with (match cell_cmp a b with
          | Lt => cells_inter c (b :: c')
          | Eq => a :: cells_inter c c'
          | Gt => cells_inter (a :: c) c'
          end).
  destruct (cell_cmp a b).
  - specialize (IH c'). simpl. lia.
  - specialize (IH (b :: c')). simpl in *. lia.
  - simpl in *. lia.
Qed.

Lemma raster_intersection_area (a b : geometry) :
  (area (intersection a b) <= area a)%Q ∧ (area (intersection a b) <= area b)%Q.
Proof.
  destruct a as [x y|c], b as [x' y'|c'];
    try (unfold intersection, raster, r_intersection;
         destruct (r_intersects _ _); split; apply raster_area_nonneg).
  destruct (cells_inter_length c c'). simpl. unfold Qle. simpl. lia.
Qed.

(** The features of the run on [three_points] are the clusters [0; 1] and
    [2]. *)
Lemma merged_features_are_clusters_witness :
  ∃ groups,
    Forall2 (emitted_for (buffer_frame 5 three_points)) three_points_merged groups
    ∧ Forall (λ g, g ≠ [] ∧ StronglySorted lt g) groups
    ∧ StronglySorted lt (seed <$> groups)
    ∧ concat groups ≡ₚ seq 0 (length (buffer_frame 5 three_points)).
Proof.
  apply (merged_features_are_clusters 50 (buffer_frame 5 three_points)).
  exact three_points_merged_run.
Defined.

Lemma merged_features_number_witness :
  Forall (λ r, (1 ≤ original_count r)%Z) three_points_merged
  ∧ length three_points_merged ≤ length (buffer_frame 5 three_points)
  ∧ (buffer_frame 5 three_points ≠ [] → three_points_merged ≠ []).
Proof.
  apply (merged_features_number 50 (buffer_frame 5 three_points)).
  exact three_points_merged_run.
Defined.


Lemma three_points_stage_run :
  merge_stage 5 50 three_points = Ok (three_points_stage.1, three_points_stage.2).
Proof. reflexivity. Defined.

(** Three points in, two rows out: a reduction of a third. *)
Lemma merge_stage_returns_witness :
  three_points ≠ []
  ∧ 1 ≤ length three_points_stage.1 ≤ length three_points
  ∧ Forall (λ r, keys (row_props r) = ["original_count"; "center"]) three_points_stage.1
  ∧ three_points_stage.2
    = (inject_Z (Z.of_nat (length three_points)
                 - Z.of_nat (length three_points_stage.1))
       / inject_Z (Z.of_nat (length three_points)) * 100)%Q
  ∧ (0 <= three_points_stage.2)%Q ∧ (three_points_stage.2 < 100)%Q.
Proof.
  apply (merge_stage_returns 5 50 three_points).
  exact three_points_stage_run.
Defined.

(** The buffers around (0,0) and (6,0) overlap, and stay apart at 100. *)
Lemma threshold_100_merges_nothing_witness :
  merge_loop 100 (buffer_frame 5 two_points)
  = Ok (passthrough 0 (buffer_frame 5 two_points)).
Proof.
  apply (threshold_100_merges_nothing (buffer_frame 5 two_points)
           raster_area_nonneg raster_intersection_area).
  intros a b Ha Hb _.
  apply elem_of_cons in Ha as [->|Ha]; [|apply list_elem_of_singleton in Ha as ->];
    (apply elem_of_cons in Hb as [->|Hb]; [|apply list_elem_of_singleton in Hb as ->]);
    vm_compute; discriminate.
Defined.

(** Filtering [tagged_points] on [kind = stop] keeps the first row only. *)
Lemma property_filter_selected_witness :
  let kept := property_filter "kind" [CStr "stop"] tagged_points in
  kept `sublist_of` tagged_points
  ∧ (∀ r, r ∈ kept ↔ r ∈ tagged_points
                      ∧ isin (column_value "kind" r) [CStr "stop"] = true)
  ∧ (∀ r, get "kind" (row_props r) = None →
          isin CNull [CStr "stop"] = false → r ∉ kept)
  ∧ property_filter "kind" [CStr "stop"] kept = kept.
Proof.
  apply (property_filter_selected "kind" [CStr "stop"] tagged_points).
  discriminate.
Defined.

(** Setting [latitude] on a record that has it, and [longitude] on one that
    has not. *)
Lemma set_column_lookup_witness :
  let r : record := [("kind", CStr "stop"); ("latitude", CStr "old")] in
  get "kind" (set_column "latitude" (CNum 2) r) = Some (CStr "stop")
  ∧ keys (set_column "latitude" (CNum 2) r) = ["kind"; "latitude"]
  ∧ keys (set_column "longitude" (CNum 2) r) = ["kind"; "latitude"; "longitude"].
Proof.
  intros r.
  destruct (set_column_lookup "latitude" (CNum 2) r) as (_ & Hother & Hhas & _).
  destruct (set_column_lookup "longitude" (CNum 2) r) as (_ & _ & _ & Hnew).
  split_and!.
  - apply Hother. discriminate.
  - apply Hhas. right. left.
  - apply Hnew. intros Hin.
    repeat (apply elem_of_cons in Hin as [Hin|Hin]; [discriminate|]).
    by apply not_elem_of_nil in Hin.
Defined.

(** The CSV record of the first of [tagged_points]: its own [latitude] is
    overwritten. *)
Lemma csv_frame_records_witness :
  let output_df : list record :=
    [[("kind", CStr "stop"); ("latitude", CNum 2); ("longitude", CNum 2)]] in
  length output_df = 1
  ∧ Forall2 (λ r rec,
       ∃ x y, geom_x (row_geometry r) = Ok x
              ∧ geom_y (row_geometry r) = Ok y
              ∧ get "latitude" rec = Some (CNum y)
              ∧ get "longitude" rec = Some (CNum x)
              ∧ ∀ k, k ≠ "latitude" → k ≠ "longitude" →
                     get k rec = get k (row_props r))
       (take 1 tagged_points) output_df.
Proof.
  intros output_df. apply (csv_frame_records (take 1 tagged_points) output_df).
  reflexivity.
Defined.

(** Points export; a merged region among them and nothing is exported. *)
Lemma csv_frame_all_or_nothing_witness :
  (∃ output_df, csv_frame tagged_points = Ok output_df)
  ∧ ¬ (∃ output_df, csv_frame (empty_feature :: tagged_points) = Ok output_df).
Proof.
  split.
  - apply (proj2 (csv_frame_all_or_nothing tagged_points)).
    repeat constructor; by eexists.
  - intros Hok.
    apply (proj1 (csv_frame_all_or_nothing (empty_feature :: tagged_points))) in Hok.
    apply Forall_cons in Hok as [[[x Hx] _] _]. discriminate.
Defined.

(** Selecting among the four points with the square: one row, one record. *)
Lemma selection_section_points_witness :
  ∃ download,
    selection_section (Some square_drawing) four_points
    = Done (Some (select_rows square four_points, download))
    ∧ match download with
      | None => select_rows square four_points = []
      | Some output_df =>
          select_rows square four_points ≠ []
          ∧ csv_frame (select_rows square four_points) = Ok output_df
          ∧ length output_df = length (select_rows square four_points)
      end.
Proof.
  apply (selection_section_points square [] four_points square eq_refl).
  intros r Hr.
  repeat (apply elem_of_cons in Hr as [->|Hr]; [by eexists _, _|]).
  by apply not_elem_of_nil in Hr.
Defined.

(** [points.v2.GeoJSON] is read as GeoJSON. *)
Lemma file_type_extension_witness :
  file_type "points.v2.GeoJSON" = "geojson" ∧ file_type "GeoJSON" = "geojson".
Proof. apply (file_type_extension "points.v2" "GeoJSON"). reflexivity. Defined.

Lemma cells_union_length (c c' : list (Z * Z)) :
  length c ≤ length (cells_union c c') ∧ length c' ≤ length (cells_union c c').
Proof.
  revert c'. induction c as [|a c IH]; intros c'.
  { destruct c'; simpl; lia. }
  induction c' as [|b c' IH']; [simpl; lia|].
  change (cells_union (a :: c) (b :: c'))
    with (match cell_cmp a b with
          | Lt => a :: cells_union c (b :: c')
          | Eq => a :: cells_union c c'
          | Gt => b :: cells_union (a :: c) c'
          end).
  destruct (cell_cmp a b).
  - specialize (IH c'). simpl. lia.
  - specialize (IH (b :: c')). simpl in *. lia.
  - simpl in *. lia.
Qed.

Lemma raster_union_area (a b : geometry) :
  (0 < area a)%Q → (0 < area b)%Q → (0 < area (unary_union [a; b]))%Q.
Proof.
  destruct a as [x y|c]; [intros Ha; by apply Qlt_irrefl in Ha|].
  destruct b as [x' y'|c']; [intros _ Hb; by apply Qlt_irrefl in Hb|].
  simpl. unfold Qlt. simpl. intros Hc Hc'.
  destruct (cells_union_length c (cells_union c' [])). lia.
Qed.

(** Three points buffered by 5 units: the stage returns. *)
Lemma merge_stage_positive_areas_witness :
  ∃ merged reduction, merge_stage 5 50 three_points = Ok (merged, reduction).
Proof.
  apply (merge_stage_positive_areas 5 50 three_points).
  - discriminate.
  - intros r Hr.
    repeat (apply elem_of_cons in Hr as [->|Hr]; [vm_compute; reflexivity|]).
    by apply not_elem_of_nil in Hr.
  - exact raster_union_area.
Defined.
